(** * pymdownx.blocks.caption: figure captions, their numbering and ids

    A shallow embedding of [src/pymdownx/blocks/caption.py]:
    - the host-language primitives the module relies on (string methods,
      [int], [str], [str.format], the [re] fragment of [RE_FIG_NUM]);
    - [xml.etree.ElementTree] elements as finite trees;
    - [update_tag], [CaptionTreeprocessor.run] (the numbering pass) and the
      [Caption] block handlers [on_validate], [on_create], [on_end];
    - the properties of the specification, stated on these definitions.

    Conventions.  A Python [str] is a [string] whose characters are the code
    points below 256.  A Python [dict] keyed by strings is a [gmap string _].
    A Python exception is the [Raise] outcome of the [result] monad.  An
    element is identified by its position in the document: the document is a
    tree, no element object occurs at two places. *)

From Stdlib Require Import ZArith Ascii String List Bool Lia.
From stdpp Require Import base option list gmap strings pretty.

Local Open Scope string_scope.
Local Open Scope Z_scope.
Local Open Scope list_scope.

(** ** Exceptions and the error monad *)

Inductive exn : Type :=
| KeyError
| ValueError
| IndexError
| Unsupported   (* outside the modelled fragment of a library call *)
| OutOfFuel.    (* the bound of a walk is reached: not an outcome of Python *)

Inductive result (A : Type) : Type :=
| Ok (a : A)
| Raise (e : exn).
Arguments Ok {A} a.
Arguments Raise {A} e.

#[global] Instance result_ret : MRet result := fun _ a => Ok a.
#[global] Instance result_bind : MBind result := fun _ _ k m =>
  match m with
  | Ok a => k a
  | Raise e => Raise e
  end.

#[global] Instance result_fmap : FMap result := fun _ _ f m =>
  match m with
  | Ok a => Ok (f a)
  | Raise e => Raise e
  end.

Fixpoint mapR {A B : Type} (f : A -> result B) (l : list A) : result (list B) :=
  match l with
  | [] => Ok []
  | a :: l' => b ← f a; bs ← mapR f l'; Ok (b :: bs)
  end.

(** ** Python strings *)

Module Py.

(** [str.isspace] on one character, for code points below 256. *)
Definition is_space (c : ascii) : bool :=
  let n := nat_of_ascii c in
  ((9 <=? n) && (n <=? 13) || (28 <=? n) && (n <=? 32)
   || (n =? 133) || (n =? 160))%nat.

(** [bool(s)] for a string. *)
Definition truthy (s : string) : bool :=
  match s with EmptyString => false | String _ _ => true end.

(** [s.lstrip()] *)
Fixpoint lstrip (s : string) : string :=
  match s with
  | String c s' => if is_space c then lstrip s' else s
  | EmptyString => EmptyString
  end.


(** [s[n:]] *)
Fixpoint drop (n : nat) (s : string) : string :=
  match n, s with
  | O, _ => s
  | S n', String _ s' => drop n' s'
  | S _, EmptyString => EmptyString
  end.

(** [s.startswith(c)] for a one-character prefix. *)
Definition startswith (c : ascii) (s : string) : bool :=
  match s with
  | String c' _ => Ascii.eqb c' c
  | EmptyString => false
  end.

(** [s.split(sep)] for a one-character separator: never the empty list. *)
Fixpoint split (sep : ascii) (s : string) : list string :=
  match s with
  | EmptyString => [EmptyString]
  | String c s' =>
      if Ascii.eqb c sep then EmptyString :: split sep s'
      else match split sep s' with
           | piece :: rest => String c piece :: rest
           | [] => [String c EmptyString]
           end
  end.

(** [sep.join(l)] *)
Fixpoint join (sep : string) (l : list string) : string :=
  match l with
  | [] => EmptyString
  | [x] => x
  | x :: l' => x +:+ sep +:+ join sep l'
  end.

(** [str(n)] for an integer. *)
Definition str (n : Z) : string := pretty n.

Definition is_digit (c : ascii) : bool :=
  let n := nat_of_ascii c in ((48 <=? n) && (n <=? 57))%nat.

Definition digit_val (c : ascii) : Z := Z.of_nat (nat_of_ascii c) - 48.

(** The digits of an integer literal: groups of decimal digits separated by
    single underscores.  [seen] tells whether the previous character was a
    digit, [acc] is the value read so far. *)
Fixpoint int_digits (seen : bool) (acc : Z) (l : list ascii) : option Z :=
  match l with
  | [] => if seen then Some acc else None
  | c :: l' =>
      if is_digit c then int_digits true (10 * acc + digit_val c) l'
      else if Ascii.eqb c "_"%char then
        (if seen then
           match l' with
           | d :: _ => if is_digit d then int_digits false acc l' else None
           | [] => None
           end
         else None)
      else None
  end.

(** The whitespace [int] skips around a number: the characters that are
    white space for C, and the two beyond 127 that are for [str]. *)
Definition is_int_space (c : ascii) : bool :=
  let n := nat_of_ascii c in
  ((9 <=? n) && (n <=? 13) || (n =? 32) || (n =? 133) || (n =? 160))%nat.

Fixpoint int_lstrip (l : list ascii) : list ascii :=
  match l with
  | c :: l' => if is_int_space c then int_lstrip l' else l
  | [] => []
  end.

Definition int_strip (l : list ascii) : list ascii :=
  rev (int_lstrip (rev (int_lstrip l))).

(** [int(s)] in base ten: surrounding whitespace is dropped, one sign is
    allowed; anything else raises [ValueError]. *)
Definition int (s : string) : result Z :=
  let body := int_strip (list_ascii_of_string s) in
  let '(neg, ds) :=
    match body with
    | c :: l' =>
        if Ascii.eqb c "-"%char then (true, l')
        else if Ascii.eqb c "+"%char then (false, l')
        else (false, body)
    | [] => (false, body)
    end in
  match ds with
  | d :: _ =>
      if is_digit d then
        match int_digits false 0 ds with
        | Some n => Ok (if neg then - n else n)
        | None => Raise ValueError
        end
      else Raise ValueError
  | [] => Raise ValueError
  end.

(** [template.format(arg)] with one positional string argument.  Modelled:
    literal text, the escapes [{{] and [}}], and the automatic field [{}]
    (a second one raises [IndexError], as Python finds no argument for it);
    a lone brace raises [ValueError].  Field names, conversions and format
    specifications are outside the fragment. *)
Fixpoint format_go (used : bool) (arg : string) (t : string) : result string :=
  match t with
  | EmptyString => Ok EmptyString
  | String c t' =>
      if Ascii.eqb c "{"%char then
        match t' with
        | String d t'' =>
            if Ascii.eqb d "{"%char then
              r ← format_go used arg t''; Ok (String "{"%char r)
            else if Ascii.eqb d "}"%char then
              (if used then Raise IndexError
               else r ← format_go true arg t''; Ok (arg +:+ r))
            else Raise Unsupported
        | EmptyString => Raise ValueError
        end
      else if Ascii.eqb c "}"%char then
        match t' with
        | String d t'' =>
            if Ascii.eqb d "}"%char then
              r ← format_go used arg t''; Ok (String "}"%char r)
            else Raise ValueError
        | EmptyString => Raise ValueError
        end
      else r ← format_go used arg t'; Ok (String c r)
  end.

Definition format (template arg : string) : result string :=
  format_go false arg template.

End Py.

(** ** The fragment of [re] used by [RE_FIG_NUM]

    A backtracking matcher in continuation-passing style: quantifiers are
    greedy, alternatives are tried left to right, a lookahead consumes
    nothing.  A position is the number of characters consumed together with
    the characters that remain. *)

Module Re.

Inductive re : Type :=
| Chr (p : ascii -> bool)   (* one character of a class *)
| Seq (r1 r2 : re)
| Alt (r1 r2 : re)
| Opt (r : re)              (* r? *)
| Star (r : re)             (* r* *)
| Group (n : nat) (r : re)  (* capturing group number n *)
| Look (r : re)             (* (?=r) *)
| Bol                       (* ^ *)
| Eol.                      (* $ *)

(** Spans of the groups that took part in the match. *)
Abbreviation captures := (gmap nat (nat * nat)).

Fixpoint exec {M : Type} (r : re) (pos : nat) (rest : list ascii)
    (caps : captures) (k : nat -> list ascii -> captures -> option M)
    {struct r} : option M :=
  match r with
  | Chr p =>
      match rest with
      | c :: rest' => if p c then k (S pos) rest' caps else None
      | [] => None
      end
  | Seq r1 r2 =>
      exec r1 pos rest caps (fun pos' rest' caps' => exec r2 pos' rest' caps' k)
  | Alt r1 r2 =>
      match exec r1 pos rest caps k with
      | Some m => Some m
      | None => exec r2 pos rest caps k
      end
  | Opt r1 =>
      match exec r1 pos rest caps k with
      | Some m => Some m
      | None => k pos rest caps
      end
  | Star r1 =>
      (* one more iteration first, the rest of the pattern otherwise; an
         iteration has to consume a character *)
      (fix star (fuel : nat) (pos : nat) (rest : list ascii) (caps : captures)
         {struct fuel} : option M :=
         match fuel with
         | O => k pos rest caps
         | S fuel' =>
             match exec r1 pos rest caps
                     (fun pos' rest' caps' =>
                        if (length rest' <? length rest)%nat
                        then star fuel' pos' rest' caps' else None) with
             | Some m => Some m
             | None => k pos rest caps
             end
         end) (length rest) pos rest caps
  | Group n r1 =>
      exec r1 pos rest caps
        (fun pos' rest' caps' => k pos' rest' (<[n := (pos, pos')]> caps'))
  | Look r1 =>
      match exec r1 pos rest caps (fun _ _ caps' => Some caps') with
      | Some caps' => k pos rest caps'
      | None => None
      end
  | Bol => if (pos =? 0)%nat then k pos rest caps else None
  | Eol =>
      match rest with
      | [] => k pos rest caps
      | [c] => if Ascii.eqb c "010"%char then k pos rest caps else None
      | _ => None
      end
  end.

(** A match object: the subject, where the match ends, the group spans. *)
Record Match : Type := mkMatch {
  m_string : string;
  m_end : nat;
  m_groups : captures
}.

(** [pattern.match(s)] *)
Definition match_ (r : re) (s : string) : option Match :=
  exec r 0%nat (list_ascii_of_string s) ∅
    (fun pos _ caps => Some (mkMatch s pos caps)).

(** [m.group(n)]: [None] when the group took no part in the match. *)
Definition group (m : Match) (n : nat) : option string :=
  match m_groups m !! n with
  | Some (i, j) => Some (String.substring i (j - i) (m_string m))
  | None => None
  end.

Definition chr (c : ascii) : re := Chr (Ascii.eqb c).
Definition range (lo hi : ascii) : re :=
  Chr (fun c => ((nat_of_ascii lo <=? nat_of_ascii c)
                 && (nat_of_ascii c <=? nat_of_ascii hi))%nat).
(** [.] without DOTALL: anything but a newline. *)
Definition any : re := Chr (fun c => negb (Ascii.eqb c "010"%char)).

End Re.

(** [RE_FIG_NUM].  The pattern reads, piece by piece:
    [^], an optional group 1 holding a caret, group 2 holding [[1-9][0-9]*]
    followed by any number of repetitions of [.[1-9][0-9]*] (the dot is not
    escaped: it stands for any character), and a lookahead for a space or
    [$]. *)
Definition RE_FIG_NUM : Re.re :=
  let d19 := Re.range "1"%char "9"%char in
  let d09 := Re.range "0"%char "9"%char in
  Re.Seq Re.Bol
    (Re.Seq (Re.Opt (Re.Group 1 (Re.chr "^"%char)))
       (Re.Seq
          (Re.Group 2
             (Re.Seq d19
                (Re.Seq (Re.Star d09)
                   (Re.Star (Re.Seq Re.any (Re.Seq d19 (Re.Star d09)))))))
          (Re.Look (Re.Alt (Re.chr " "%char) Re.Eol)))).

(** ** Elements of [xml.etree.ElementTree] *)

Abbreviation attrs := (gmap string string).

#[warnings="-register-all"] Inductive Element : Type := mkElement {
  tag : string;
  attrib : attrs;
  text : option string;
  tail : option string;
  children : list Element
}.

Definition set_attrib (a : attrs) (el : Element) : Element :=
  mkElement (tag el) a (text el) (tail el) (children el).
Definition set_text (t : option string) (el : Element) : Element :=
  mkElement (tag el) (attrib el) t (tail el) (children el).
Definition set_children (l : list Element) (el : Element) : Element :=
  mkElement (tag el) (attrib el) (text el) (tail el) l.

(** [etree.Element(tag, attrib)] *)
Definition new_element (t : string) (a : attrs) : Element :=
  mkElement t a None None [].

(** [key in d] *)
Definition has_key {V : Type} (d : gmap string V) (key : string) : bool :=
  bool_decide (is_Some (d !! key)).

(** [d[key]] *)
Definition getitem {V : Type} (d : gmap string V) (key : string) : result V :=
  match d !! key with
  | Some v => Ok v
  | None => Raise KeyError
  end.

(** The number of levels of a tree. *)
Fixpoint height (el : Element) : nat :=
  S (foldr (fun c h => Nat.max (height c) h) O (children el)).

(** ** [update_tag] *)

(** The [span] that carries the formatted prefix. *)
Definition prefix_span (value : string) (tl : option string) : Element :=
  mkElement "span" {["class" := "caption-prefix"]} (Some value) tl [].

(** The body of the loop of [update_tag] for a [figcaption] child: the
    prefix goes into a new leading paragraph, or in front of the content of
    the paragraph the caption already starts with. *)
Definition prefix_caption (value : string) (child : Element) : Element :=
  let wrap :=
    let p := mkElement "p" ∅ None (text child) [prefix_span value None] in
    set_children (p :: children child) (set_text None child) in
  match children child with
  | [] => wrap
  | p :: rest =>
      if negb (String.eqb (tag p) "p") then wrap
      else
        let tl := match text p with
                  | Some t => Some (" " +:+ t)
                  | None => None
                  end in
        let p' := set_children (prefix_span value tl :: children p)
                    (set_text None p) in
        set_children (p' :: rest) child
  end.

Definition caption_step (template fig_num : string) (child : Element)
    : result Element :=
  if String.eqb (tag child) "figcaption" then
    value ← Py.format template fig_num;
    Ok (prefix_caption value child)
  else Ok child.

(** [update_tag(el, fig_type, fig_num, template, prepend)]: the element is
    updated in place, the model returns the updated element.  The children
    are walked forwards when [prepend] holds and backwards otherwise. *)
Definition update_tag (el : Element) (fig_type fig_num template : string)
    (prepend : bool) : result Element :=
  let a :=
    if has_key (attrib el) "id" then attrib el
    else <["id" := "__" +:+ fig_type +:+ "_"
                   +:+ Py.join "_" (Py.split "."%char fig_num)]> (attrib el) in
  kids ←
    (if Py.truthy template then
       if prepend then mapR (caption_step template fig_num) (children el)
       else @rev Element <$> mapR (caption_step template fig_num) (rev (children el))
     else Ok (children el));
  Ok (set_children kids (set_attrib a el)).

(** ** [CaptionTreeprocessor] *)

Record Config : Type := mkConfig {
  cfg_auto : bool;
  cfg_prepend : bool;
  cfg_auto_level : Z
}.

Record CaptionTreeprocessor : Type := mkTreeprocessor {
  tp_auto : bool;
  tp_prepend : bool;
  tp_type : string;
  tp_auto_level : Z;
  tp_fig_types : gmap string string
}.

(** [CaptionTreeprocessor.__init__] *)
Definition tp_init (types : gmap string string) (config : Config)
    : CaptionTreeprocessor :=
  {| tp_auto := cfg_auto config;
     tp_prepend := cfg_prepend config;
     tp_type := "";
     tp_auto_level := Z.max 0 (cfg_auto_level config);
     tp_fig_types := types |}.

(** An element of the document is referred to by the child indices that
    lead to it from the root. *)
Abbreviation path := (list nat).

(** The variables of [run] that live across iterations of its loop. *)
Record LoopState : Type := mkLoopState {
  last : gmap string Z;
  counters : gmap string (list Z);
  last_type : string;
  figs : list path
}.

(** The counter update of [run] for a figure at depth [stack], where [l] is
    the depth the type was last seen at. *)
Definition bump (stack l : Z) (counter : list Z) : result (list Z) :=
  if stack >? l then
    Ok (counter ++ replicate (Z.to_nat (stack - l)) 1)
  else if (stack =? l)%Z then
    match counter !! Z.to_nat stack with
    | Some x => Ok (<[Z.to_nat stack := x + 1]> counter)
    | None => Raise IndexError
    end
  else
    let counter := take (Z.to_nat (stack + 1)) counter in
    match counter !! pred (length counter) with
    | Some x => Ok (<[pred (length counter) := x + 1]> counter)
    | None => Raise IndexError
    end.

(** [fig_num and all(a <= b for a, b in zip(counter, fig_num))], and the
    assignment [counter[:] = fig_num[:]] it guards. *)
Definition adopts (counter fig_num : list Z) : bool :=
  negb (bool_decide (fig_num = []))
  && forallb (fun ab => (fst ab <=? snd ab)%Z) (zip counter fig_num).

Definition adopt (counter : list Z) (fig_num : option (list Z)) : list Z :=
  match fig_num with
  | Some n => if adopts counter n then n else counter
  | None => counter
  end.

(** The [while True] loop of [run]: [parents] is the chain that
    [parent_map] yields from the current element upwards, each ancestor
    with its tag and its attributes as they are when the loop runs.  The
    result is the depth, the attributes of the element and [skip]. *)
Fixpoint climb (auto_level : Z) (fig_type : string)
    (parents : list (string * attrs)) (stack : Z) (a : attrs)
    : result (Z * attrs * bool) :=
  match parents with
  | [] => Ok (stack, a, false)
  | (ptag, pattrib) :: rest =>
      same ← (if String.eqb ptag "figure" then
                t ← getitem pattrib "__figure_type";
                Ok (String.eqb t fig_type)
              else Ok false);
      if same : bool then
        let level := has_key pattrib "__figure_level" in
        stack ← (if level then
                   lv ← getitem pattrib "__figure_level";
                   n ← Py.int lv;
                   Ok (stack + (n + 1))
                 else Ok (stack + 1));
        let a := if level then <["__figure_level" := Py.str (stack + 1)]> a
                 else a in
        if negb (auto_level =? 0)%Z && (stack >=? auto_level) then
          Ok (stack, a, true)
        else if level then Ok (stack, a, false)
        else climb auto_level fig_type rest stack a
      else climb auto_level fig_type rest stack a
  end.

(** What the depth computation of an iteration ends in: [continue], or a
    depth together with the manual number, if there is one. *)
Inductive depth : Type :=
| Continue (a : attrs)
| Depth (a : attrs) (stack : Z) (fig_num : option (list Z)).

Definition find_depth (self : CaptionTreeprocessor) (fig_type : string)
    (parents : list (string * attrs)) (a : attrs) : result depth :=
  if has_key a "__figure_num" then
    (* Handle a manual number *)
    s ← getitem a "__figure_num";
    fig_num ← mapR Py.int (Py.split "."%char s);
    let a := delete "__figure_num" a in
    let a := <["__figure_level" := Py.str (Z.of_nat (length fig_num))]> a in
    Ok (Depth a (Z.of_nat (length fig_num) - 1) (Some fig_num))
  else
    (* Determine depth *)
    let stack := -1 in
    start ←
      (if has_key a "__figure_level" then
         lv ← getitem a "__figure_level";
         n ← Py.int lv;
         let stack := stack + (n + 1) in
         if negb (tp_auto_level self =? 0)%Z
            && (stack >=? tp_auto_level self - 1)
         then Ok None
         else Ok (Some stack)
       else Ok (Some (stack + 1)));
    match start with
    | None => Ok (Continue a)
    | Some stack =>
        '(stack, a, skip) ← climb (tp_auto_level self) fig_type parents stack a;
        if skip : bool then Ok (Continue a)
        else Ok (Depth a stack None)
    end.

(** The part of an iteration that follows the depth computation. *)
Definition number (self : CaptionTreeprocessor) (st : LoopState)
    (el : Element) (fig_type : string) (stack : Z)
    (fig_num : option (list Z)) (prepend : bool)
    : result (LoopState * Element) :=
  l ← getitem (last st) fig_type;
  counter ← getitem (counters st) fig_type;
  counter ← bump stack l counter;
  let counter := adopt counter fig_num in
  let st := {| last := <[fig_type := stack]> (last st);
               counters := <[fig_type := counter]> (counters st);
               last_type := fig_type;
               figs := figs st |} in
  el ← update_tag el fig_type
         (Py.join "." (Py.str <$> take (Z.to_nat (stack + 1)) counter))
         (default "" (tp_fig_types self !! fig_type))
         prepend;
  Ok (st, el).

(** One iteration of the loop of [run] on the element [el] found at [p].
    The variable [fig_type] of the source is assigned from [last_type] or
    from the element before every use, so it is local to the iteration. *)
Definition loop_body (self : CaptionTreeprocessor) (p : path)
    (parents : list (string * attrs)) (st : LoopState) (el : Element)
    : result (LoopState * Element) :=
  if String.eqb (tag el) "figure" then
    (* Find caption appended or prepended *)
    let prepend := has_key (attrib el) "__figure_prepend" in
    let a := if prepend then delete "__figure_prepend" (attrib el)
             else attrib el in
    (* Determine figure type *)
    if has_key a "__figure_type" then
      fig_type ← getitem a "__figure_type";
      let st := {| last := last st; counters := counters st;
                   last_type := last_type st; figs := figs st ++ [p] |} in
      if negb (has_key (tp_fig_types self) fig_type)
         || negb (Py.truthy (default "" (tp_fig_types self !! fig_type)))
      then Ok (st, set_attrib a el)
      else
        d ← find_depth self fig_type parents a;
        match d with
        | Continue a => Ok (st, set_attrib a el)
        | Depth a stack fig_num =>
            if stack >? -1 then
              number self st (set_attrib a el) fig_type stack fig_num prepend
            else Ok (st, set_attrib a el)
        end
    else Ok (st, set_attrib a el)
  else Ok (st, el).

(** [for el in doc.iter()]: the element itself, then the subtrees of its
    children as they are once the body has run on the element.  The body
    adds elements to the tree it walks, so the walk is bounded by [fuel],
    the depth it may reach; [run] gives it two levels more than the
    document has, which is enough ([run_within_bound]). *)
Fixpoint iter_children (f : nat -> LoopState -> Element -> result (LoopState * Element))
    (i : nat) (st : LoopState) (l : list Element)
    : result (LoopState * list Element) :=
  match l with
  | [] => Ok (st, [])
  | c :: l' =>
      '(st, c) ← f i st c;
      '(st, l') ← iter_children f (S i) st l';
      Ok (st, c :: l')
  end.

Fixpoint iter_loop (self : CaptionTreeprocessor) (fuel : nat) (p : path)
    (parents : list (string * attrs)) (st : LoopState) (el : Element)
    : result (LoopState * Element) :=
  match fuel with
  | O => Raise OutOfFuel
  | S fuel' =>
      '(st, el) ← loop_body self p parents st el;
      '(st, kids) ←
        iter_children
          (fun i => iter_loop self fuel' (p ++ [i])
                      ((tag el, attrib el) :: parents))
          0%nat st (children el);
      Ok (st, set_children kids el)
  end.

(** Applies [f] to the element found at a path.  A path that leads
    nowhere is not one the walk records ([run_clean_up_returns]). *)
Fixpoint modify_at (f : Element -> result Element) (p : path) (el : Element)
    : result Element :=
  match p with
  | [] => f el
  | i :: p' =>
      match children el !! i with
      | Some c =>
          c ← modify_at f p' c;
          Ok (set_children (<[i := c]> (children el)) el)
      | None => Raise Unsupported
      end
  end.

(** The body of the clean-up loop of [run]. *)
Definition clean_up (fig : Element) : result Element :=
  _ ← getitem (attrib fig) "__figure_type";
  let a := delete "__figure_type" (attrib fig) in
  let a := if has_key a "__figure_level" then delete "__figure_level" a
           else a in
  Ok (set_attrib a fig).

Fixpoint clean_up_all (l : list path) (doc : Element) : result Element :=
  match l with
  | [] => Ok doc
  | p :: l' => doc ← modify_at clean_up p doc; clean_up_all l' doc
  end.

Definition init_state (self : CaptionTreeprocessor) : LoopState :=
  {| last := (fun _ => 0) <$> tp_fig_types self;
     counters := (fun _ => [0]) <$> tp_fig_types self;
     last_type := tp_type self;
     figs := [] |}.

(** [CaptionTreeprocessor.run(doc)]: the document after the pass, or the
    exception the pass raises. *)
Definition run (self : CaptionTreeprocessor) (doc : Element) : result Element :=
  '(st, doc) ← iter_loop self (height doc + 2) [] [] (init_state self) doc;
  clean_up_all (figs st) doc.

(** ** The [Caption] block *)

Module Caption.

(** A block object: the class attributes [NAME] and [PREFIX] of the
    subclass registered for a figure type, what the host hands over
    ([argument], [config]) and the attributes set by [on_init].  [caption]
    refers to the [figcaption] by its index among the children of the
    figure the block returned. *)
Record Block : Type := mkBlock {
  NAME : string;
  PREFIX : string;
  argument : option string;
  config : Config;
  auto : bool;
  prepend : bool;
  caption : option nat;
  fig_num : string;
  level : string
}.

Definition set_prepend (b : bool) (self : Block) : Block :=
  mkBlock (NAME self) (PREFIX self) (argument self) (config self) (auto self)
    b (caption self) (fig_num self) (level self).
Definition set_caption (c : option nat) (self : Block) : Block :=
  mkBlock (NAME self) (PREFIX self) (argument self) (config self) (auto self)
    (prepend self) c (fig_num self) (level self).
Definition set_fig_num (s : string) (self : Block) : Block :=
  mkBlock (NAME self) (PREFIX self) (argument self) (config self) (auto self)
    (prepend self) (caption self) s (level self).
Definition set_level (s : string) (self : Block) : Block :=
  mkBlock (NAME self) (PREFIX self) (argument self) (config self) (auto self)
    (prepend self) (caption self) (fig_num self) s.

(** A block of the subclass [(name, prefix)] on which [on_init] has run. *)
Definition on_init (name prefix : string) (cfg : Config)
    (arg : option string) : Block :=
  {| NAME := name; PREFIX := prefix; argument := arg; config := cfg;
     auto := cfg_auto cfg; prepend := cfg_prepend cfg;
     caption := None; fig_num := ""; level := "" |}.

(** The statements of [on_validate] under [if argument:]. *)
Definition parse_argument (self : Block) (arg : string) : Block * string :=
  let '(self, arg) :=
    if Py.startswith ">" arg then
      (set_prepend false self, Py.lstrip (Py.drop 1 arg))
    else if Py.startswith "<" arg then
      (set_prepend true self, Py.lstrip (Py.drop 1 arg))
    else (self, arg) in
  match Re.match_ RE_FIG_NUM arg with
  | Some m =>
      let g2 := default "" (Re.group m 2) in
      let self :=
        if Py.truthy (default "" (Re.group m 1)) then set_level g2 self
        else set_fig_num g2 self in
      (self, Py.lstrip (Py.drop (Re.m_end m) arg))
  | None => (self, arg)
  end.

(** [on_validate(parent)]: the verdict, the block and the parent element as
    they are when the call returns. *)
Definition on_validate (self : Block) (parent : Element)
    : bool * Block * Element :=
  let '(self, arg) :=
    match argument self with
    | Some arg => if Py.truthy arg then parse_argument self arg else (self, arg)
    | None => (self, "")
    end in
  (negb (Py.truthy arg), self, parent).

(** [children[-1]] when there are children. *)
Definition last_child (l : list Element) : option Element :=
  l !! pred (length l).

(** The inner loop of [on_create]: does the figure hold a [figcaption]? *)
Definition has_figcaption (child : Element) : bool :=
  existsb (fun c => String.eqb (tag c) "figcaption") (children child).

(** The value of [fig] after the sibling search of [on_create]. *)
Definition find_fig (child : option Element) : option Element :=
  match child with
  | Some c =>
      if String.eqb (tag c) "figure" then
        if has_figcaption c then None else Some c
      else None
  | None => None
  end.

(** The attributes [on_create] stamps on the figure. *)
Definition stamp (self : Block) (a : attrs) : attrs :=
  let a :=
    if auto self then
      let a := <["__figure_type" := NAME self]> a in
      let a := if Py.truthy (level self)
               then <["__figure_level" := level self]> a else a in
      if Py.truthy (fig_num self)
      then <["__figure_num" := fig_num self]> a else a
    else a in
  if prepend self && auto self then <["__figure_prepend" := "1"]> a else a.

(** The second half of [on_create]: the hints are stamped on the figure
    and the caption is added to it, in front when [prepend] holds. *)
Definition attach (self : Block) (fig : Element) : Element :=
  let a := stamp self (attrib fig) in
  let cap := new_element "figcaption" ∅ in
  if prepend self then set_children (cap :: children fig) (set_attrib a fig)
  else set_children (children fig ++ [cap]) (set_attrib a fig).

(** [on_create(parent)]: the block, the parent after the call and the index
    of the returned figure among the children of the parent.  [child] is
    the last child, so once the new figure is appended
    [parent.remove(child)] takes out the element just before it. *)
Definition on_create (self : Block) (parent : Element)
    : Block * Element * nat :=
  let kids := children parent in
  let child := last_child kids in
  let '(fig, others) :=
    match find_fig child with
    | Some fig => (fig, removelast kids)
    | None =>
        match child with
        | Some c => (set_children [c] (new_element "figure" ∅), removelast kids)
        | None => (new_element "figure" ∅, kids)
        end
    end in
  let fig := attach self fig in
  let self :=
    set_caption (Some (if prepend self then 0%nat
                       else pred (length (children fig)))) self in
  (self, set_children (others ++ [fig]) parent, length others).

(** [on_end(block)]: the figure after the call. *)
Definition on_end (self : Block) (block : Element) : result Element :=
  if Py.truthy (PREFIX self) && negb (auto self) then
    fig_num ←
      (if Py.truthy (level self) then
         n ← Py.int (level self);
         Ok (Py.join "." (replicate (Z.to_nat n) "1"))
       else Ok (fig_num self));
    if Py.truthy fig_num then
      update_tag block (NAME self) fig_num (PREFIX self) (prepend self)
    else Ok block
  else Ok block.

End Caption.

(** ** [CaptionExtension] *)

(** The default value of the option [types]: the name and prefix of every
    figure type, as [extendMarkdownBlocks] reads them. *)
Definition default_types : gmap string string :=
  <["caption" := ""]>
    (<["figure-caption" := "Figure {}."]>
       (<["table-caption" := "Table {}."]> ∅)).

Definition default_config : Config :=
  {| cfg_auto := true; cfg_prepend := false; cfg_auto_level := 0 |}.

(** ** Observations on documents *)

(** The element at a path. *)
Fixpoint find_at (p : path) (el : Element) : option Element :=
  match p with
  | [] => Some el
  | i :: p' =>
      match children el !! i with
      | Some c => find_at p' c
      | None => None
      end
  end.

(** All elements of a document, in document order. *)
Fixpoint elements (el : Element) : list Element :=
  el :: concat (map elements (children el)).

(** The [figure] elements of a document, in document order. *)
Definition figures (doc : Element) : list Element :=
  filter (fun el => tag el = "figure") (elements doc).

(** The transient attributes: the hints the Binder leaves for the pass. *)
Definition transient_keys : list string :=
  ["__figure_type"; "__figure_prepend"; "__figure_level"; "__figure_num"].

Definition transient (el : Element) : list string :=
  filter (fun key => is_Some (attrib el !! key)) transient_keys.

(** The text of every prefix [span] below an element, in document order. *)
Definition is_prefix_span (el : Element) : Prop :=
  tag el = "span" ∧ attrib el !! "class" = Some "caption-prefix".

#[global] Instance is_prefix_span_dec el : Decision (is_prefix_span el).
Proof. unfold is_prefix_span. apply _. Defined.

Definition prefixes (el : Element) : list (option string) :=
  text <$> filter is_prefix_span (elements el).

(** The prefixes found in each [figcaption] child of a figure. *)
Definition caption_prefixes (fig : Element) : list (list (option string)) :=
  prefixes <$> filter (fun c => tag c = "figcaption") (children fig).

(** ** Documents built by the Binder *)

(** The Binder on one block of the figure type [(name, prefix)]: the block
    is validated and, when it is accepted, creates its figure under
    [parent]. *)
Definition bind_caption (name prefix : string) (cfg : Config)
    (arg : option string) (parent : Element) : option Element :=
  let '(accepted, self, parent) :=
    Caption.on_validate (Caption.on_init name prefix cfg arg) parent in
  if accepted : bool then Some (Caption.on_create self parent).1.2 else None.

Definition paragraph (t : string) : Element :=
  mkElement "p" ∅ (Some t) None [].

Definition root_of (l : list Element) : Element :=
  mkElement "div" ∅ None None l.

(** A paragraph followed by a caption block of the type. *)
Definition captioned (name prefix : string) (cfg : Config)
    (arg : option string) (t : string) : option Element :=
  bind_caption name prefix cfg arg (root_of [paragraph t]).

(** ** Validation as the specification words it *)

Module ValidationSpec.





End ValidationSpec.


(** ** Well-formed states of the pass *)

(** The state the pass keeps for a type is well formed when the counter
    has one slot for every depth up to the last one visited. *)
Definition counter_ok (l : Z) (counter : list Z) : Prop :=
  0 ≤ l ∧ length counter = S (Z.to_nat l).

(** Slots are never negative, and positive below the top level. *)
Definition slot_ok (i : nat) (x : Z) : Prop :=
  match i with O => 0 ≤ x | S _ => 1 ≤ x end.

Definition slots_ok (counter : list Z) : Prop :=
  ∀ i x, counter !! i = Some x → slot_ok i x.


(** A manual number fixes the depth: it has one component per level. *)
Definition manual_ok (stack : Z) (fig_num : option (list Z)) : Prop :=
  ∀ n, fig_num = Some n → length n = S (Z.to_nat stack).

(** ** Reuse of a figure by the Binder *)

(** A figure is reusable when it holds no [figcaption] child. *)
Definition reusable (child : Element) : Prop :=
  tag child = "figure" ∧ ∀ c, c ∈ children child → tag c ≠ "figcaption".


(** ** Scenarios *)

(** The pass under the default configuration. *)
Definition tp_default : CaptionTreeprocessor :=
  tp_init default_types default_config.

(** A paragraph and a caption block for it are appended to a document. *)
Definition and_captioned (name prefix : string) (cfg : Config)
    (arg : option string) (t : string) (doc : option Element)
    : option Element :=
  match doc with
  | Some doc =>
      bind_caption name prefix cfg arg
        (set_children (children doc ++ [paragraph t]) doc)
  | None => None
  end.

(** The [id] of every figure of a document, in document order. *)
Definition ids (doc : Element) : list (option string) :=
  (fun fig => attrib fig !! "id") <$> figures doc.




(** A caption block of the type [caption], which has no prefix template,
    with the manual number [3]. *)
Definition doc_templateless_manual : option Element :=
  captioned "caption" "" default_config (Some "3") "a".

(** A caption block inside a [figure] that no caption block made, as raw
    HTML gives: the figure of the block is a child of that figure. *)
Definition doc_in_raw_figure : option Element :=
  (fun fig => root_of [fig]) <$>
  bind_caption "figure-caption" "Figure {}." default_config None
    (mkElement "figure" ∅ None None [paragraph "a"]).

(** Caption blocks whose numeric token is not a dotted number. *)
Definition doc_manual_1x2 : option Element :=
  captioned "figure-caption" "Figure {}." default_config (Some "1x2") "a".

Definition doc_level_dotted : option Element :=
  captioned "figure-caption" "Figure {}." default_config (Some "^1.2") "a".

(** A caption block right after a [figcaption] element: the new figure
    wraps that element and gets the caption of the block as well. *)
Definition doc_two_captions : option Element :=
  bind_caption "figure-caption" "Figure {}." default_config None
    (root_of [mkElement "figcaption" ∅ (Some "raw") None []]).



(** Two top-level figures of the type [figure]. *)
Definition figure_types : gmap string string := {["figure" := "Figure {}."]}.

Definition doc_two_figures : option Element :=
  and_captioned "figure" "Figure {}." default_config None "b"
    (captioned "figure" "Figure {}." default_config None "a").

(** ** Invariant of the loop of the pass *)

(** Every type that has a counter has a well-formed one. *)
Definition state_ok (st : LoopState) : Prop :=
  ∀ ty l counter,
    last st !! ty = Some l → counters st !! ty = Some counter →
    counter_ok l counter ∧ slots_ok counter.

(** ** Ancestors of a figure *)

(** The level recorded on an element, if any, reads as a natural number. *)
Definition level_ok (a : attrs) : Prop :=
  ∀ lv, a !! "__figure_level" = Some lv → ∃ n, Py.int lv = Ok n ∧ 0 ≤ n.

(** An ancestor that is a figure carries the hints of the Binder. *)
Definition hinted (parent : string * attrs) : Prop :=
  parent.1 = "figure" →
  is_Some (parent.2 !! "__figure_type") ∧ level_ok parent.2.


(** ** Dotted numbers *)

(** A string without a dot. *)
Definition dot_free (s : string) : Prop :=
  Forall (fun c => c ≠ "."%char) (list_ascii_of_string s).

(** ** Outcomes within the bound of the walk *)

(** A value or an exception of the program: the walk did not give up. *)
Abbreviation within_bound r := (r ≠ Raise OutOfFuel).

(** What an iteration does to the children of its element: a child stays
    as it is, or it is a [figcaption] that gets the prefix. *)
Definition child_step (c c' : Element) : Prop :=
  c' = c ∨ (tag c = "figcaption" ∧ ∃ value, c' = prefix_caption value c).

(** ** Figures recorded for the clean-up *)

(** The path leads to an element that carries [__figure_type]. *)
Definition typed_at (doc : Element) (r : path) : Prop :=
  ∃ fig, find_at r doc = Some fig ∧ is_Some (attrib fig !! "__figure_type").

(** What the walk of a subtree adds to [figs]: paths below the subtree
    that are pairwise distinct and lead to elements with
    [__figure_type]. *)
Definition records (p : path) (st st' : LoopState) (el' : Element) : Prop :=
  ∃ rs, figs st' = figs st ++ ((p ++.) <$> rs)
        ∧ NoDup rs ∧ Forall (typed_at el') rs.

(** ** Further observations on the pass *)

(** No figure of the document carries a hint the pass reads first. *)
Definition hint_free (doc : Element) : Prop :=
  ∀ el, el ∈ elements doc → tag el = "figure" →
        attrib el !! "__figure_type" = None
        ∧ attrib el !! "__figure_prepend" = None.


(** Is the ancestor a figure of the type? *)
Definition is_figure_of (ty : string) (parent : string * attrs) : bool :=
  String.eqb parent.1 "figure"
  && bool_decide (parent.2 !! "__figure_type" = Some ty).

(** An ancestor that is a figure carries a type and no level. *)
Definition plain_figure (parent : string * attrs) : Prop :=
  parent.1 = "figure" →
  is_Some (parent.2 !! "__figure_type")
  ∧ parent.2 !! "__figure_level" = None.

(** The value of a run of decimal digits read after [acc]. *)
Definition digits_val (acc : Z) (l : list ascii) : Z :=
  fold_left (fun a c => 10 * a + Py.digit_val c) l acc.

(** ** Further observations on the [Caption] block *)

(** [on_add(block)]: the caption element the block keeps, found in the
    figure [on_create] returned. *)
Definition on_add (self : Caption.Block) (fig : Element) : option Element :=
  k ← Caption.caption self; children fig !! k.

(** The characters an accepted argument can begin with: a direction
    marker, the caret of a level override, or a digit from 1 to 9. *)
Definition token_start (c : ascii) : bool :=
  Ascii.eqb c ">" || Ascii.eqb c "<" || Ascii.eqb c "^"
  || ((49 <=? nat_of_ascii c) && (nat_of_ascii c <=? 57))%nat.

(** ** The text of an element *)

(** [''.join(el.itertext())]: the text of the element, then for each child
    its inner text and its tail. *)
Fixpoint itertext (el : Element) : string :=
  default "" (text el)
  +:+ foldr (fun c acc => itertext c +:+ default "" (tail c) +:+ acc) ""
        (children el).

(** The text of [c'] is the text of [c] with something inserted. *)
Definition text_kept (c c' : Element) : Prop :=
  ∃ before ins after,
    itertext c = before +:+ after
    ∧ itertext c' = before +:+ ins +:+ after.

(** ** Case conversions of [str], for code points below 256 *)

Module PyStr.

(** [c.lower()] for one character. *)
Definition lower_char (c : ascii) : ascii :=
  let n := nat_of_ascii c in
  if ((65 <=? n) && (n <=? 90) || (192 <=? n) && (n <=? 214)
      || (216 <=? n) && (n <=? 222))%nat
  then ascii_of_nat (n + 32) else c.

(** The title-case form of one character.  The sharp s becomes [Ss]; the
    micro sign and the y with diaeresis map to code points above 255,
    which the strings of the model do not have. *)
Definition title_char (c : ascii) : result string :=
  let n := nat_of_ascii c in
  if ((97 <=? n) && (n <=? 122) || (224 <=? n) && (n <=? 246)
      || (248 <=? n) && (n <=? 254))%nat
  then Ok (String (ascii_of_nat (n - 32)) "")
  else if (n =? 223)%nat then Ok "Ss"
  else if ((n =? 181) || (n =? 255))%nat then Raise Unsupported
  else Ok (String c "").

(** Does the character have a case? *)
Definition is_cased (c : ascii) : bool :=
  let n := nat_of_ascii c in
  ((65 <=? n) && (n <=? 90) || (97 <=? n) && (n <=? 122)
   || (n =? 170) || (n =? 181) || (n =? 186)
   || (192 <=? n) && (n <=? 214) || (216 <=? n) && (n <=? 246)
   || (248 <=? n) && (n <=? 255))%nat.

(** [s.lower()] *)
Fixpoint lower (s : string) : string :=
  match s with
  | EmptyString => EmptyString
  | String c s' => String (lower_char c) (lower s')
  end.

(** [s.capitalize()]: the first character in title case, the rest in
    lower case. *)
Definition capitalize (s : string) : result string :=
  match s with
  | EmptyString => Ok EmptyString
  | String c s' => t ← title_char c; Ok (t +:+ lower s')
  end.

(** [s.title()]: a character that follows a cased character is put in
    lower case, any other in title case. *)
Fixpoint title_go (previous_is_cased : bool) (s : string) : result string :=
  match s with
  | EmptyString => Ok EmptyString
  | String c s' =>
      t ← (if previous_is_cased then Ok (String (lower_char c) "")
           else title_char c);
      r ← title_go (is_cased c) s';
      Ok (t +:+ r)
  end.

Definition title (s : string) : result string := title_go false s.

End PyStr.

(** ** [CaptionExtension.extendMarkdownBlocks] *)












(** ** The [Admonition] block *)

Module Admonition.

(** A block object: the class attribute [NAME], and the argument and the
    options the host hands over. *)
Record Block : Type := mkBlock {
  NAME : string;
  argument : option string;
  options : gmap string string
}.

(** [on_parse()]: the verdict and the block. *)
Definition on_parse (self : Block) : bool * Block :=
  if negb (String.eqb (NAME self) "admonition") then
    (true, mkBlock (NAME self) (argument self)
             (<["type" := NAME self]> (options self)))
  else (true, self).

(** The paragraph that holds the title. *)
Definition title_p (title : string) : Element :=
  mkElement "p" {["class" := "admonition-title"]} (Some title) None [].

(** [on_create(parent)]: the parent after the call and the index of the
    returned element among its children. *)
Definition on_create (self : Block) (parent : Element)
    : result (Element * nat) :=
  (* Set classes *)
  atype ← getitem (options self) "type";
  let classes :=
    if Py.truthy atype && negb (String.eqb atype "admonition")
    then ["admonition"; atype] else ["admonition"] in
  (* Create the admonition *)
  let el := new_element "div" {["class" := Py.join " " classes]} in
  (* Create the title *)
  title ←
    (if negb (Py.truthy (default "" (argument self))) then
       if negb (Py.truthy atype) then Ok None
       else Some <$> PyStr.capitalize atype
     else Ok (argument self));
  let el :=
    match title with
    | Some t => set_children [title_p t] el
    | None => el
    end in
  Ok (set_children (children parent ++ [el]) parent,
      length (children parent)).

End Admonition.

(** ** Figures covered by the clean-up *)

(** The figures of a walked subtree have lost [__figure_prepend], and
    those that carry [__figure_type] are found at the paths [rs]. *)
Definition covered (el : Element) (rs : list path) : Prop :=
  ∀ q e, find_at q el = Some e → tag e = "figure" →
         attrib e !! "__figure_prepend" = None
         ∧ (is_Some (attrib e !! "__figure_type") → q ∈ rs).

(** ** Well-formed numeric tokens *)

(** The loop that [Re.exec] runs on [Star r1], by name. *)
Definition star_loop {M : Type} (r1 : Re.re)
    (k : nat -> list ascii -> Re.captures -> option M)
    : nat -> nat -> list ascii -> Re.captures -> option M :=
  fix star (fuel : nat) (pos : nat) (rest : list ascii) (caps : Re.captures)
    {struct fuel} : option M :=
    match fuel with
    | O => k pos rest caps
    | S fuel' =>
        match Re.exec r1 pos rest caps
                (fun pos' rest' caps' =>
                   if (length rest' <? length rest)%nat
                   then star fuel' pos' rest' caps' else None) with
        | Some m => Some m
        | None => k pos rest caps
        end
    end.

(** A digit from 1 to 9. *)
Definition is_d19 (c : ascii) : bool :=
  ((49 <=? nat_of_ascii c) && (nat_of_ascii c <=? 57))%nat.

(** A decimal numeral without a leading zero, as its first digit and the
    digits that follow. *)
Definition numeral_ok (g : ascii * list ascii) : Prop :=
  is_d19 g.1 = true ∧ Forall (fun c => Py.is_digit c = true) g.2.

(** The characters of the components of a dotted number after the first:
    each one a dot and a numeral. *)
Definition digit_groups (gs : list (ascii * list ascii)) : list ascii :=
  foldr (fun g acc => "."%char :: g.1 :: g.2 ++ acc) [] gs.
(** * Properties *)

(** ** Strings *)







Lemma split_nonempty (sep : ascii) (s : string) : Py.split sep s ≠ [].
Proof.
  destruct s as [|c s]; simpl; [done|].
  destruct (Ascii.eqb c sep); [done|]. by destruct (Py.split sep s).
Qed.

(** ** Outcomes and dictionary lookups *)

Lemma getitem_some {V : Type} (d : gmap string V) (key : string) (v : V) :
  d !! key = Some v → getitem d key = Ok v.
Proof. unfold getitem. by intros ->. Qed.

Lemma has_key_some {V : Type} (d : gmap string V) (key : string) (v : V) :
  d !! key = Some v → has_key d key = true.
Proof. intros H. unfold has_key. apply bool_decide_eq_true_2. eauto. Qed.

Lemma has_key_none {V : Type} (d : gmap string V) (key : string) :
  d !! key = None → has_key d key = false.
Proof.
  intros H. unfold has_key. apply bool_decide_eq_false_2.
  rewrite H. by intros [? ?].
Qed.

(** A computation that returns has returned at every step. *)
Lemma bind_ok {A B : Type} (m : result A) (k : A → result B) (b : B) :
  m ≫= k = Ok b → ∃ a, m = Ok a ∧ k a = Ok b.
Proof. destruct m as [a|e]; simpl; [eauto|done]. Qed.

Lemma getitem_ok {V : Type} (d : gmap string V) (key : string) (v : V) :
  getitem d key = Ok v → d !! key = Some v.
Proof. unfold getitem. destruct (d !! key); [|done]. by intros [= ->]. Qed.

Lemma mapR_length {A B : Type} (f : A → result B) (l : list A) (l' : list B) :
  mapR f l = Ok l' → length l' = length l.
Proof.
  revert l'. induction l as [|a l IH]; intros l' H; simpl in H.
  - by injection H as <-.
  - apply bind_ok in H as (b & _ & H). apply bind_ok in H as (bs & Hbs & H).
    injection H as <-. simpl. f_equal. by apply IH.
Qed.

(** A computation gives up only where one of its steps does. *)
Lemma wb_bind {A B : Type} (m : result A) (k : A → result B) :
  within_bound m → (∀ a, m = Ok a → within_bound (k a)) →
  within_bound (m ≫= k).
Proof.
  destruct m as [a|e]; unfold mbind, result_bind.
  - intros _ H. by apply H.
  - intros H _ [= ->]. by apply H.
Qed.

Lemma wb_ok {A : Type} (a : A) : within_bound (Ok a).
Proof. done. Qed.

Lemma wb_fmap {A B : Type} (f : A → B) (m : result A) :
  within_bound m → within_bound (f <$> m).
Proof.
  destruct m as [a|e]; unfold fmap, result_fmap; [done|].
  intros H [= ->]. by apply H.
Qed.

Lemma wb_getitem {V : Type} (d : gmap string V) (key : string) :
  within_bound (getitem d key).
Proof. unfold getitem. by destruct (d !! key). Qed.

Lemma wb_mapR {A B : Type} (f : A → result B) (l : list A) :
  (∀ a, within_bound (f a)) → within_bound (mapR f l).
Proof.
  intros Hf. induction l as [|a l IH]; simpl; [done|].
  apply wb_bind; [done|]. intros b _. apply wb_bind; [done|]. by intros.
Qed.

(** ** Lists *)

Lemma Forall2_rev {A B : Type} (P : A → B → Prop) (l : list A) (k : list B) :
  Forall2 P l k → Forall2 P (rev l) (rev k).
Proof. rewrite !rev_alt. apply Forall2_reverse. Qed.

Lemma Forall2_transport {A B : Type} (R : A → B → Prop) (Q : B → Prop)
    (l : list A) (k : list B) :
  Forall2 R l k → Forall (fun x => ∀ y, R x y → Q y) l → Forall Q k.
Proof.
  induction 1 as [|x y l k Hxy _ IH]; intros Hl; [constructor|].
  apply Forall_cons in Hl as [Hx Hl]. constructor; [by apply Hx|by apply IH].
Qed.

(** ** Validation *)

Section Validation.

Import Caption.





End Validation.



(** C4: validation takes any character but a newline for the separator
    of a manual number, and takes a dotted sequence after the caret for a
    level override.  So it accepts [1x2] as a manual number and [^1.2] as a
    level override; the pass then raises [ValueError] on the figure. *)
Theorem validation_accepts_malformed_numbers (c : ascii) :
  c ≠ "010"%char →
  let block arg :=
    Caption.on_init "figure-caption" "Figure {}." default_config (Some arg) in
  let parent := root_of [paragraph "a"] in
  let token := String "1" (String c "2") in
  ((Caption.on_validate (block token) parent).1.1 = true ∧
   Caption.fig_num (Caption.on_validate (block token) parent).1.2 = token) ∧
  ((Caption.on_validate (block (String "^" token)) parent).1.1 = true ∧
   Caption.level (Caption.on_validate (block (String "^" token)) parent).1.2
   = token) ∧
  (∃ doc, doc_manual_1x2 = Some doc ∧ run tp_default doc = Raise ValueError) ∧
  (∃ doc, doc_level_dotted = Some doc ∧ run tp_default doc = Raise ValueError).
Proof.
  intros Hnl. cbn zeta.
  assert (Hruns :
    (∃ doc, doc_manual_1x2 = Some doc
            ∧ run tp_default doc = Raise ValueError) ∧
    (∃ doc, doc_level_dotted = Some doc
            ∧ run tp_default doc = Raise ValueError)).
  { split; eexists; (split; [vm_compute; reflexivity|]);
      vm_compute; reflexivity. }
  destruct c as [[] [] [] [] [] [] [] []];
    try (exfalso; apply Hnl; reflexivity);
    (split; [split; vm_compute; reflexivity|]);
    (split; [split; vm_compute; reflexivity|]); exact Hruns.
Qed.

Lemma validation_accepts_malformed_numbers_witness :
  (Caption.on_validate
     (Caption.on_init "figure-caption" "Figure {}." default_config
        (Some "1x2"))
     (root_of [paragraph "a"])).1.1 = true.
Proof.
  assert (Hnl : "x"%char ≠ "010"%char) by discriminate.
  destruct (validation_accepts_malformed_numbers "x" Hnl) as [[Hok _] _].
  exact Hok.
Defined.

(** ** The Binder *)

Section Binder.

Import Caption.

Lemma last_child_nil : last_child [] = None.
Proof. done. Qed.

Lemma last_child_snoc (l : list Element) (x : Element) :
  last_child (l ++ [x]) = Some x.
Proof.
  unfold last_child. rewrite length_app. simpl.
  replace (pred (length l + 1)) with (length l) by lia.
  apply list_lookup_middle. done.
Qed.

Lemma snoc_cases (l : list Element) :
  l = [] ∨ ∃ l' x, l = l' ++ [x].
Proof.
  destruct l as [|y l] using rev_ind; [by left|right; eauto].
Qed.

Lemma has_figcaption_false (child : Element) :
  has_figcaption child = false ↔
  ∀ c, c ∈ children child → tag c ≠ "figcaption".
Proof.
  unfold has_figcaption. rewrite <- not_true_iff_false, existsb_exists.
  split.
  - intros H c Hc Htag. apply H. exists c. split.
    + by apply list_elem_of_In.
    + by apply String.eqb_eq.
  - intros H (c & Hc & Htag). apply (H c).
    + by apply list_elem_of_In.
    + by apply String.eqb_eq.
Qed.

Lemma find_fig_reusable (child : Element) :
  reusable child → find_fig (Some child) = Some child.
Proof.
  intros [Htag Hcap]. unfold find_fig.
  apply String.eqb_eq in Htag as ->.
  by apply has_figcaption_false in Hcap as ->.
Qed.

Lemma find_fig_not_reusable (child : Element) :
  ¬ reusable child → find_fig (Some child) = None.
Proof.
  intros Hn. unfold find_fig.
  destruct (String.eqb (tag child) "figure") eqn:Htag; [|done].
  destruct (has_figcaption child) eqn:Hcap; [done|].
  destruct Hn. split.
  - by apply String.eqb_eq.
  - by apply has_figcaption_false.
Qed.

Lemma reusable_cases (child : Element) : reusable child ∨ ¬ reusable child.
Proof.
  destruct (String.eqb (tag child) "figure") eqn:Htag.
  - destruct (has_figcaption child) eqn:Hcap.
    + right. intros [_ H]. apply has_figcaption_false in H. congruence.
    + left. split; [by apply String.eqb_eq|by apply has_figcaption_false].
  - right. intros [H _]. apply String.eqb_eq in H. congruence.
Qed.

End Binder.


(** ** The counters of the numbering pass *)

Section Counters.

Implicit Types (stack l : Z) (counter natural fig_num : list Z).

Lemma gtb_cases stack l :
  (stack >? l) = true ∧ l < stack
  ∨ (stack >? l) = false ∧ (stack =? l)%Z = true ∧ stack = l
  ∨ (stack >? l) = false ∧ (stack =? l)%Z = false ∧ stack < l.
Proof.
  destruct (Z.lt_total stack l) as [H|[H|H]].
  - right; right. repeat split; [|by apply Z.eqb_neq; lia|done].
    rewrite Z.gtb_ltb. by apply Z.ltb_ge; lia.
  - right; left. subst. repeat split; [|by apply Z.eqb_refl].
    rewrite Z.gtb_ltb. by apply Z.ltb_irrefl.
  - left. split; [|done]. rewrite Z.gtb_ltb. by apply Z.ltb_lt.
Qed.

Lemma bump_deeper stack l counter :
  l < stack →
  bump stack l counter = Ok (counter ++ replicate (Z.to_nat (stack - l)) 1).
Proof.
  intros H. unfold bump.
  destruct (gtb_cases stack l) as [[-> _]|[(_ & _ & ?)|(_ & _ & ?)]];
    [done|lia..].
Qed.

Lemma bump_same l counter init x :
  length init = Z.to_nat l → counter = init ++ [x] →
  bump l l counter = Ok (init ++ [x + 1]).
Proof.
  intros Hlen ->. unfold bump.
  destruct (gtb_cases l l) as [[_ ?]|[(-> & -> & _)|(_ & _ & ?)]]; [lia| |lia].
  rewrite <- Hlen, list_lookup_middle by done.
  f_equal. replace (length init) with (length init + 0)%nat by lia.
  by rewrite insert_app_r.
Qed.

Lemma bump_shallower stack l counter init x :
  stack < l → length init = Z.to_nat stack → 0 ≤ stack →
  take (Z.to_nat (stack + 1)) counter = init ++ [x] →
  bump stack l counter = Ok (init ++ [x + 1]).
Proof.
  intros Hlt Hlen Hpos Htake. unfold bump.
  destruct (gtb_cases stack l) as [[_ ?]|[(_ & _ & ?)|(-> & -> & _)]];
    [lia..|].
  rewrite Htake, length_app. simpl.
  replace (pred (length init + 1)) with (length init) by lia.
  rewrite list_lookup_middle by done.
  f_equal. replace (length init) with (length init + 0)%nat at 1 by lia.
  by rewrite insert_app_r.
Qed.

(** A well-formed counter ends in a slot. *)
Lemma counter_ok_snoc l counter :
  counter_ok l counter →
  ∃ init x, counter = init ++ [x] ∧ length init = Z.to_nat l.
Proof.
  intros [Hl Hlen].
  destruct counter as [|y counter _] using rev_ind; [simpl in Hlen; lia|].
  exists counter, y. split; [done|].
  rewrite length_app in Hlen. simpl in Hlen. lia.
Qed.

(** The counter update never fails on a well-formed state, and leaves a
    well-formed state for the depth of the figure. *)
Lemma bump_ok stack l counter :
  0 ≤ stack → counter_ok l counter →
  ∃ natural, bump stack l counter = Ok natural ∧ counter_ok stack natural.
Proof.
  intros Hs Hok. pose proof Hok as [Hl Hlen].
  destruct (Z.lt_total stack l) as [H|[H|H]].
  - assert (Htake : length (take (Z.to_nat (stack + 1)) counter)
                    = S (Z.to_nat stack)).
    { rewrite length_take. lia. }
    destruct (counter_ok_snoc stack _ (conj Hs Htake)) as (init & x & Hi & Hn).
    exists (init ++ [x + 1]). split.
    + by apply bump_shallower.
    + split; [done|]. rewrite length_app. simpl. lia.
  - subst l. destruct (counter_ok_snoc stack _ Hok) as (init & x & -> & Hn).
    exists (init ++ [x + 1]). split.
    + by apply (bump_same stack _ init x).
    + split; [done|]. rewrite length_app. simpl. lia.
  - exists (counter ++ replicate (Z.to_nat (stack - l)) 1). split.
    + by apply bump_deeper.
    + split; [done|]. rewrite length_app, length_replicate. lia.
Qed.

Lemma adopts_spec counter fig_num :
  length counter = length fig_num → fig_num ≠ [] →
  adopts counter fig_num = true ↔ Forall2 Z.le counter fig_num.
Proof.
  intros Hlen Hne. unfold adopts.
  rewrite bool_decide_eq_false_2 by done. simpl.
  clear Hne. revert fig_num Hlen.
  induction counter as [|a counter IH]; intros [|b fig_num] Hlen;
    simpl in *; try lia.
  - split; [constructor|done].
  - rewrite andb_true_iff, Z.leb_le, IH by lia. split.
    + intros [? ?]. by constructor.
    + intros H. by inversion H.
Qed.

Lemma adopt_cases natural (manual : option (list Z)) :
  adopt natural manual = natural
  ∨ ∃ n, manual = Some n ∧ adopt natural manual = n
         ∧ adopts natural n = true.
Proof.
  destruct manual as [n|]; simpl; [|by left].
  destruct (adopts natural n) eqn:H; [right; eauto|by left].
Qed.

Lemma adopts_le counter fig_num :
  adopts counter fig_num = true → length counter = length fig_num →
  Forall2 Z.le counter fig_num.
Proof.
  intros H Hlen.
  assert (Hne : fig_num ≠ []).
  { intros ->. unfold adopts in H.
    rewrite bool_decide_eq_true_2 in H by done. done. }
  by apply adopts_spec.
Qed.

(** The counter update, case by case: slots holding [1] are appended for
    a deeper figure; otherwise the counter is cut after the slot of the
    figure and that slot grows by one. *)
Lemma bump_spec stack l counter :
  0 ≤ stack → counter_ok l counter →
  (l < stack ∧
   bump stack l counter = Ok (counter ++ replicate (Z.to_nat (stack - l)) 1))
  ∨ (stack ≤ l ∧ ∃ init x,
       take (Z.to_nat (stack + 1)) counter = init ++ [x]
       ∧ length init = Z.to_nat stack
       ∧ bump stack l counter = Ok (init ++ [x + 1])).
Proof.
  intros Hs Hok. pose proof Hok as [Hl Hlen].
  destruct (Z.lt_total stack l) as [H|[H|H]].
  - right. split; [lia|].
    assert (Htake : length (take (Z.to_nat (stack + 1)) counter)
                    = S (Z.to_nat stack)).
    { rewrite length_take. lia. }
    destruct (counter_ok_snoc stack _ (conj Hs Htake)) as (init & x & Hi & Hn).
    exists init, x. repeat split; [done..|]. by apply bump_shallower.
  - subst l. right. split; [lia|].
    destruct (counter_ok_snoc stack _ Hok) as (init & x & -> & Hn).
    exists init, x. repeat split; [|done|by apply (bump_same stack _ init x)].
    apply take_ge. rewrite length_app. simpl. lia.
  - left. split; [done|]. by apply bump_deeper.
Qed.

Lemma slot_ok_mono i x y : slot_ok i x → x ≤ y → slot_ok i y.
Proof. destruct i; simpl; lia. Qed.

Lemma slot_ok_one i : slot_ok i 1.
Proof. destruct i; simpl; lia. Qed.

Lemma slots_ok_take n counter : slots_ok counter → slots_ok (take n counter).
Proof.
  intros H i x Hi. apply (H i x).
  apply lookup_take_Some in Hi. tauto.
Qed.

Lemma slots_ok_snoc_incr init x :
  slots_ok (init ++ [x]) → slots_ok (init ++ [x + 1]).
Proof.
  intros H i y Hi.
  destruct (decide (i < length init)%nat) as [Hlt|Hge].
  - apply (H i y). rewrite lookup_app_l in * by done. done.
  - rewrite lookup_app_r in Hi by lia.
    destruct (i - length init)%nat as [|k] eqn:Hk; [|done].
    simpl in Hi. injection Hi as <-.
    apply slot_ok_mono with x; [|lia].
    apply (H i x). rewrite lookup_app_r, Hk by lia. done.
Qed.

Lemma slots_ok_app_ones counter n :
  slots_ok counter → slots_ok (counter ++ replicate n 1).
Proof.
  intros H i y Hi.
  destruct (decide (i < length counter)%nat) as [Hlt|Hge].
  - apply (H i y). rewrite lookup_app_l in Hi by done. done.
  - rewrite lookup_app_r in Hi by lia.
    apply lookup_replicate in Hi as [-> _]. apply slot_ok_one.
Qed.

Lemma slots_ok_le counter fig_num :
  slots_ok counter → Forall2 Z.le counter fig_num → slots_ok fig_num.
Proof.
  intros H Hle i y Hi.
  destruct (Forall2_lookup_r _ _ _ _ _ Hle Hi) as (x & Hx & Hxy).
  apply slot_ok_mono with x; [by apply (H i)|done].
Qed.

Lemma slots_ok_bump stack l counter natural :
  0 ≤ stack → counter_ok l counter → slots_ok counter →
  bump stack l counter = Ok natural → slots_ok natural.
Proof.
  intros Hs Hok Hslots Hb.
  destruct (bump_spec stack l counter Hs Hok)
    as [[_ E]|(_ & init & x & Htake & _ & E)];
    rewrite E in Hb; injection Hb as <-.
  - by apply slots_ok_app_ones.
  - apply slots_ok_snoc_incr. rewrite <- Htake. by apply slots_ok_take.
Qed.


End Counters.






(** ** The counters along the pass *)

Section Invariant.

Variable self : CaptionTreeprocessor.

Lemma init_state_ok : state_ok (init_state self).
Proof.
  intros ty l counter Hl Hc. unfold init_state in *. simpl in *.
  rewrite lookup_fmap in Hl. rewrite lookup_fmap in Hc.
  destruct (tp_fig_types self !! ty); simpl in *; [|done].
  injection Hl as <-. injection Hc as <-.
  split; [split; [lia|done]|].
  intros [|i] x Hx; simpl in Hx; [|done]. injection Hx as <-. simpl. lia.
Qed.

Lemma number_state_ok (st st' : LoopState) (el el' : Element)
    (fig_type : string) (stack : Z) (fig_num : option (list Z))
    (prepend : bool) :
  state_ok st → 0 ≤ stack → manual_ok stack fig_num →
  number self st el fig_type stack fig_num prepend = Ok (st', el') →
  state_ok st'.
Proof.
  intros Hst Hs Hman Hnum. unfold number in Hnum.
  apply bind_ok in Hnum as (l & Hl & Hnum). apply getitem_ok in Hl.
  apply bind_ok in Hnum as (counter & Hc & Hnum). apply getitem_ok in Hc.
  apply bind_ok in Hnum as (natural & Hb & Hnum).
  apply bind_ok in Hnum as (el1 & _ & Hnum). injection Hnum as <- _.
  destruct (Hst fig_type l counter Hl Hc) as [Hok Hslots].
  intros ty l' counter'. simpl.
  destruct (decide (fig_type = ty)) as [->|Hne].
  - rewrite !lookup_insert_eq. intros [= <-] [= <-].
    destruct (bump_ok stack l counter Hs Hok) as (natural' & Hb' & Hnat).
    rewrite Hb in Hb'. injection Hb' as <-.
    pose proof (slots_ok_bump _ _ _ _ Hs Hok Hslots Hb) as Hns.
    destruct (adopt_cases natural fig_num) as [->|(n & -> & -> & Had)];
      [done|].
    specialize (Hman n eq_refl).
    assert (Hlen : length natural = length n) by (destruct Hnat; lia).
    split; [by destruct Hnat|].
    eapply slots_ok_le; [exact Hns|by apply adopts_le].
  - rewrite !lookup_insert_ne by done. apply Hst.
Qed.

(** The depth that goes with a manual number is its length less one. *)
Lemma find_depth_manual_ok (fig_type : string)
    (parents : list (string * attrs)) (a a' : attrs) (stack : Z)
    (fig_num : option (list Z)) :
  find_depth self fig_type parents a = Ok (Depth a' stack fig_num) →
  manual_ok stack fig_num.
Proof.
  unfold find_depth. destruct (has_key a "__figure_num").
  - intros H. apply bind_ok in H as (s & _ & H).
    apply bind_ok in H as (n & Hn & H). injection H as _ <- <-.
    intros n' [= <-]. apply mapR_length in Hn.
    pose proof (split_nonempty "." s) as Hne.
    destruct (Py.split "." s); [done|]. simpl in Hn. lia.
  - intros H. apply bind_ok in H as (start & _ & H).
    destruct start as [stack0|]; [|done].
    apply bind_ok in H as ([[stack1 a1] skip] & _ & H).
    destruct skip; [done|]. injection H as _ _ <-. by intros n.
Qed.

Lemma loop_body_state_ok (p : path) (parents : list (string * attrs))
    (st st' : LoopState) (el el' : Element) :
  state_ok st → loop_body self p parents st el = Ok (st', el') →
  state_ok st'.
Proof.
  intros Hst. unfold loop_body.
  destruct (String.eqb (tag el) "figure"); [|by intros [= <- _]].
  set (a := if has_key (attrib el) "__figure_prepend" then _ else _).
  destruct (has_key a "__figure_type"); [|by intros [= <- _]].
  intros H. apply bind_ok in H as (fig_type & _ & H).
  destruct (_ || _) in H; [by injection H as <- _|].
  apply bind_ok in H as (d & Hd & H).
  destruct d as [a'|a' stack fig_num]; [by injection H as <- _|].
  destruct (stack >? -1) eqn:Hs; [|by injection H as <- _].
  eapply number_state_ok in H; [done|done| |].
  - rewrite Z.gtb_ltb in Hs. apply Z.ltb_lt in Hs. lia.
  - by eapply find_depth_manual_ok.
Qed.

Lemma iter_children_state_ok
    (f : nat → LoopState → Element → result (LoopState * Element))
    (i : nat) (st st' : LoopState) (l l' : list Element) :
  (∀ i st st' el el', state_ok st → f i st el = Ok (st', el') → state_ok st') →
  state_ok st → iter_children f i st l = Ok (st', l') → state_ok st'.
Proof.
  intros Hf. revert i st l'.
  induction l as [|c l IH]; intros i st l' Hst H; simpl in H.
  - by injection H as <- _.
  - apply bind_ok in H as ([st1 c1] & Hc & H).
    apply bind_ok in H as ([st2 l2] & Hl & H). injection H as <- _.
    eapply IH; [|exact Hl]. by eapply Hf.
Qed.

(** Whatever the document, the state the loop is in after any number of
    iterations is well formed. *)
Lemma iter_loop_state_ok (fuel : nat) (p : path)
    (parents : list (string * attrs)) (st st' : LoopState)
    (el el' : Element) :
  state_ok st → iter_loop self fuel p parents st el = Ok (st', el') →
  state_ok st'.
Proof.
  revert p parents st st' el el'.
  induction fuel as [|fuel IH]; intros p parents st st' el el' Hst H;
    simpl in H; [done|].
  apply bind_ok in H as ([st1 el1] & Hbody & H).
  apply bind_ok in H as ([st2 kids] & Hkids & H). injection H as <- _.
  eapply iter_children_state_ok; [|by eapply loop_body_state_ok|exact Hkids].
  intros i s s' c c' Hs Hc. simpl in Hc. eapply IH; [exact Hs|exact Hc].
Qed.

End Invariant.

(** ** Dotted numbers *)

Lemma split_dot_free (s : string) : dot_free s → Py.split "." s = [s].
Proof.
  unfold dot_free. induction s as [|c s IH]; simpl; [done|].
  intros H. apply Forall_cons in H as [Hc Hs].
  apply Ascii.eqb_neq in Hc as ->. by rewrite IH.
Qed.

Lemma split_dotted (s t : string) :
  dot_free s → Py.split "." (s +:+ String "." t) = s :: Py.split "." t.
Proof.
  unfold dot_free. induction s as [|c s IH]; simpl; [done|].
  intros H. apply Forall_cons in H as [Hc Hs].
  apply Ascii.eqb_neq in Hc as ->. by rewrite IH.
Qed.

(** Splitting a dotted number gives its components back. *)
Lemma split_join (l : list string) :
  l ≠ [] → Forall dot_free l → Py.split "." (Py.join "." l) = l.
Proof.
  intros Hne Hl. induction Hl as [|s l Hs Hl IH]; [done|].
  destruct l as [|s' l]; [by apply split_dot_free|].
  change (Py.join "." (s :: s' :: l))
    with (s +:+ String "." (Py.join "." (s' :: l))).
  rewrite split_dotted by done. f_equal. by apply IH.
Qed.

Lemma pretty_N_char_not_dot (x : N) : pretty_N_char x ≠ "."%char.
Proof. unfold pretty_N_char. by repeat case_match. Qed.

Lemma pretty_N_go_dot_free (x : N) (s : string) :
  dot_free s → dot_free (pretty_N_go x s).
Proof.
  revert s. induction (N.lt_wf_0 x) as [x _ IH]; intros s Hs.
  assert (x = 0 ∨ 0 < x)%N as [->|Hx] by lia; [done|].
  rewrite pretty_N_go_step by done. apply IH.
  - by apply N.div_lt.
  - apply Forall_cons. split; [apply pretty_N_char_not_dot|done].
Qed.

Lemma pretty_N_dot_free (x : N) : dot_free (pretty x).
Proof.
  unfold pretty, pretty_N. case_decide.
  - apply Forall_cons. split; [done|apply Forall_nil; done].
  - apply pretty_N_go_dot_free. by apply Forall_nil.
Qed.

(** [str] of an integer has no dot. *)
Lemma str_dot_free (n : Z) : dot_free (Py.str n).
Proof.
  unfold Py.str, pretty, pretty_Z. destruct n as [|p|p].
  - apply Forall_cons. split; [done|by apply Forall_nil].
  - apply pretty_N_dot_free.
  - apply Forall_cons. split; [done|apply pretty_N_dot_free].
Qed.

(** The components of the dotted ordinal are those of the counter. *)
Lemma split_ordinal (ordinal : list Z) :
  ordinal ≠ [] →
  Py.split "." (Py.join "." (Py.str <$> ordinal)) = Py.str <$> ordinal.
Proof.
  intros Hne. apply split_join.
  - by destruct ordinal.
  - apply Forall_fmap, Forall_forall. intros n _. apply str_dot_free.
Qed.

(** ** Identifiers *)

Lemma caption_steps_return (template fig_num value : string)
    (kids : list Element) :
  Py.format template fig_num = Ok value →
  ∃ kids', mapR (caption_step template fig_num) kids = Ok kids'.
Proof.
  intros Hfmt. induction kids as [|c kids [kids' IH]]; [by exists []|].
  cbn [mapR]. rewrite IH. unfold caption_step.
  destruct (String.eqb (tag c) "figcaption"); [rewrite Hfmt|]; cbn; eauto.
Qed.

(** [update_tag] returns whenever the template can be formatted; it sets
    [id] only when the element has none and touches no other attribute. *)
Lemma update_tag_id (el : Element) (fig_type fig_num template value : string)
    (prepend : bool) :
  Py.format template fig_num = Ok value →
  ∃ el',
    update_tag el fig_type fig_num template prepend = Ok el' ∧
    tag el' = tag el ∧
    attrib el' !! "id"
    = Some (default ("__" +:+ fig_type +:+ "_"
                     +:+ Py.join "_" (Py.split "." fig_num))
              (attrib el !! "id")) ∧
    ∀ key, key ≠ "id" → attrib el' !! key = attrib el !! key.
Proof.
  intros Hfmt. unfold update_tag.
  assert (Hkids : ∃ kids,
    (if Py.truthy template then
       if prepend then mapR (caption_step template fig_num) (children el)
       else @rev Element
              <$> mapR (caption_step template fig_num) (rev (children el))
     else Ok (children el)) = Ok kids).
  { destruct (Py.truthy template); [|eauto].
    destruct prepend.
    - by apply caption_steps_return with value.
    - destruct (caption_steps_return _ _ _ (rev (children el)) Hfmt)
        as [kids ->]. simpl. eauto. }
  destruct Hkids as [kids ->]. simpl. eexists. split; [done|]. simpl.
  split; [done|]. unfold has_key.
  destruct (attrib el !! "id") as [i|] eqn:Hid.
  - rewrite bool_decide_eq_true_2 by eauto. rewrite Hid. by split.
  - rewrite bool_decide_eq_false_2 by (by intros [? ?]).
    rewrite lookup_insert_eq. split; [done|].
    intros key Hkey. by rewrite lookup_insert_ne.
Qed.

(** C8.  Two top-level figures of the type [figure] get the ordinals [1]
    and [2] and the ids [__figure_1] and [__figure_2].  In general
    [update_tag], called as the pass calls it with the dotted ordinal,
    gives an element without [id] the id made of [__], the type, [_] and
    the components of the ordinal joined with underscores, and leaves an
    [id] that is there, like every other attribute, as it is. *)
Theorem ids_of_figures (el : Element) (fig_type template value : string)
    (ordinal : list Z) (prepend : bool) :
  ordinal ≠ [] →
  Py.format template (Py.join "." (Py.str <$> ordinal)) = Ok value →
  (∃ doc out,
     doc_two_figures = Some doc ∧
     run (tp_init figure_types default_config) doc = Ok out ∧
     ids doc = [None; None] ∧
     ids out = [Some "__figure_1"; Some "__figure_2"] ∧
     prefixes out = [Some "Figure 1."; Some "Figure 2."]) ∧
  ∃ el',
    update_tag el fig_type (Py.join "." (Py.str <$> ordinal)) template prepend
    = Ok el' ∧
    (∀ key, key ≠ "id" → attrib el' !! key = attrib el !! key) ∧
    match attrib el !! "id" with
    | Some i => attrib el' !! "id" = Some i
    | None =>
        attrib el' !! "id"
        = Some ("__" +:+ fig_type +:+ "_"
                +:+ Py.join "_" (Py.str <$> ordinal))
    end.
Proof.
  intros Hne Hfmt. split.
  - eexists _, _.
    split; [vm_compute; reflexivity|].
    split; [vm_compute; reflexivity|].
    split; [vm_compute; reflexivity|].
    split; vm_compute; reflexivity.
  - destruct (update_tag_id el fig_type _ template value prepend Hfmt)
      as (el' & Hrun & _ & Hid & Hother).
    exists el'. split; [done|]. split; [done|].
    rewrite Hid, split_ordinal by done. by destruct (attrib el !! "id").
Qed.

Lemma ids_of_figures_witness :
  ∃ el',
    update_tag (mkElement "figure" ∅ None None []) "figure" "2.1"
      "Figure {}." false = Ok el'
    ∧ attrib el' !! "id" = Some "__figure_2_1".
Proof.
  assert (Hne : [2; 1] ≠ @nil Z) by discriminate.
  assert (Hfmt : Py.format "Figure {}." (Py.join "." (Py.str <$> [2; 1]))
                 = Ok "Figure 2.1.") by reflexivity.
  destruct (ids_of_figures (mkElement "figure" ∅ None None []) "figure"
              "Figure {}." "Figure 2.1." [2; 1] false Hne Hfmt)
    as [_ (el' & Hrun & _ & Hid)].
  exists el'. split; [exact Hrun|exact Hid].
Defined.

(** ** The auto-level ceiling *)




(** ** The bound of the walk *)

Section Fuel.

Variable self : CaptionTreeprocessor.

Lemma height_child (el c : Element) :
  c ∈ children el → (height c < height el)%nat.
Proof.
  destruct el as [t a tx tl kids]. simpl. intros Hc.
  induction kids as [|k kids IH]; [by apply elem_of_nil in Hc|].
  apply elem_of_cons in Hc as [->|Hc]; simpl; [lia|].
  specialize (IH Hc). lia.
Qed.

Lemma height_pos (el : Element) : (1 ≤ height el)%nat.
Proof. destruct el. simpl. lia. Qed.

Lemma caption_steps_children (template fig_num : string)
    (kids kids' : list Element) :
  mapR (caption_step template fig_num) kids = Ok kids' →
  Forall2 child_step kids kids'.
Proof.
  revert kids'. induction kids as [|c kids IH]; intros kids' H; simpl in H.
  - injection H as <-. constructor.
  - apply bind_ok in H as (c' & Hc & H).
    apply bind_ok in H as (rest & Hrest & H). injection H as <-.
    constructor; [|by apply IH].
    unfold caption_step in Hc.
    destruct (String.eqb (tag c) "figcaption") eqn:Htag.
    + apply bind_ok in Hc as (value & _ & Hc). injection Hc as <-.
      right. split; [by apply String.eqb_eq|eauto].
    + injection Hc as <-. by left.
Qed.

Lemma Forall2_child_step_refl (kids : list Element) :
  Forall2 child_step kids kids.
Proof. induction kids; constructor; [by left|done]. Qed.

Lemma update_tag_children (el el' : Element)
    (fig_type fig_num template : string) (prepend : bool) :
  update_tag el fig_type fig_num template prepend = Ok el' →
  Forall2 child_step (children el) (children el').
Proof.
  unfold update_tag. intros H. apply bind_ok in H as (kids & Hkids & H).
  injection H as <-. simpl.
  destruct (Py.truthy template).
  - destruct prepend.
    + by eapply caption_steps_children.
    + destruct (mapR _ (rev (children el))) as [rkids|] eqn:Hr; [|done].
      simpl in Hkids. injection Hkids as <-.
      apply caption_steps_children in Hr.
      apply Forall2_rev in Hr. by rewrite rev_involutive in Hr.
  - injection Hkids as <-. apply Forall2_child_step_refl.
Qed.

Lemma loop_body_children (p : path) (parents : list (string * attrs))
    (st st' : LoopState) (el el' : Element) :
  loop_body self p parents st el = Ok (st', el') →
  Forall2 child_step (children el) (children el').
Proof.
  unfold loop_body.
  destruct (String.eqb (tag el) "figure");
    [|intros [= _ <-]; apply Forall2_child_step_refl].
  set (a := if has_key (attrib el) "__figure_prepend" then _ else _).
  destruct (has_key a "__figure_type");
    [|intros [= _ <-]; apply Forall2_child_step_refl].
  intros H. apply bind_ok in H as (fig_type & _ & H).
  destruct (_ || _) in H;
    [injection H as _ <-; apply Forall2_child_step_refl|].
  apply bind_ok in H as (d & _ & H).
  destruct d as [a'|a' stack fig_num];
    [injection H as _ <-; apply Forall2_child_step_refl|].
  destruct (stack >? -1);
    [|injection H as _ <-; apply Forall2_child_step_refl].
  unfold number in H.
  apply bind_ok in H as (l & _ & H). apply bind_ok in H as (c & _ & H).
  apply bind_ok in H as (n & _ & H). apply bind_ok in H as (el1 & Hup & H).
  injection H as _ <-. by apply update_tag_children in Hup.
Qed.

Lemma loop_body_not_figure (p : path) (parents : list (string * attrs))
    (st : LoopState) (el : Element) :
  tag el ≠ "figure" → loop_body self p parents st el = Ok (st, el).
Proof.
  intros Htag. unfold loop_body.
  apply String.eqb_neq in Htag. by rewrite Htag.
Qed.

(** No step of an iteration gives up. *)
Lemma wb_int (s : string) : within_bound (Py.int s).
Proof.
  unfold Py.int. destruct (Py.int_strip (list_ascii_of_string s)) as [|c l].
  - done.
  - destruct (Ascii.eqb c "-"); [|destruct (Ascii.eqb c "+")];
      repeat case_match; done.
Qed.

Lemma wb_format_go (used : bool) (arg t : string) :
  within_bound (Py.format_go used arg t).
Proof.
  remember (String.length t) as n eqn:Hn. revert t Hn used.
  induction (lt_wf n) as [n _ IH]. intros t Hn used.
  destruct t as [|c t]; [done|]. simpl.
  assert (Hrec : ∀ u t', (String.length t' < String.length (String c t))%nat
                         → within_bound (Py.format_go u arg t')).
  { intros u t' Hlt. eapply IH; [|reflexivity]. subst n. exact Hlt. }
  destruct (Ascii.eqb c "{").
  - destruct t as [|d t]; [done|].
    destruct (Ascii.eqb d "{").
    { apply wb_bind; [apply Hrec; simpl; lia|by intros]. }
    destruct (Ascii.eqb d "}"); [|done].
    destruct used; [done|].
    apply wb_bind; [apply Hrec; simpl; lia|by intros].
  - destruct (Ascii.eqb c "}").
    + destruct t as [|d t]; [done|].
      destruct (Ascii.eqb d "}"); [|done].
      apply wb_bind; [apply Hrec; simpl; lia|by intros].
    + apply wb_bind; [apply Hrec; simpl; lia|by intros].
Qed.

Lemma wb_update_tag (el : Element) (fig_type fig_num template : string)
    (prepend : bool) :
  within_bound (update_tag el fig_type fig_num template prepend).
Proof.
  assert (Hstep : ∀ c, within_bound (caption_step template fig_num c)).
  { intros c. unfold caption_step.
    destruct (String.eqb (tag c) "figcaption"); [|done].
    apply wb_bind; [apply wb_format_go|by intros]. }
  unfold update_tag. apply wb_bind; [|by intros].
  destruct (Py.truthy template); [|done].
  destruct prepend; [by apply wb_mapR|].
  apply wb_fmap. by apply wb_mapR.
Qed.

Lemma wb_bump (stack l : Z) (counter : list Z) :
  within_bound (bump stack l counter).
Proof. unfold bump. repeat case_match; done. Qed.

Lemma wb_climb (auto_level : Z) (fig_type : string)
    (parents : list (string * attrs)) (stack : Z) (a : attrs) :
  within_bound (climb auto_level fig_type parents stack a).
Proof.
  revert stack a.
  induction parents as [|[ptag pattrib] rest IH]; intros stack a; [done|].
  cbn [climb]. apply wb_bind.
  { destruct (String.eqb ptag "figure"); [|done].
    apply wb_bind; [apply wb_getitem|by intros]. }
  intros [] _; [|apply IH].
  apply wb_bind.
  { destruct (has_key pattrib "__figure_level"); [|done].
    apply wb_bind; [apply wb_getitem|]. intros lv _.
    apply wb_bind; [apply wb_int|by intros]. }
  intros stack' _. repeat case_match; done || apply IH.
Qed.

Lemma wb_find_depth (fig_type : string) (parents : list (string * attrs))
    (a : attrs) :
  within_bound (find_depth self fig_type parents a).
Proof.
  unfold find_depth. destruct (has_key a "__figure_num").
  - apply wb_bind; [apply wb_getitem|]. intros s _.
    apply wb_bind; [apply wb_mapR, wb_int|by intros].
  - apply wb_bind.
    { destruct (has_key a "__figure_level"); [|done].
      apply wb_bind; [apply wb_getitem|]. intros lv _.
      apply wb_bind; [apply wb_int|]. intros n _. by case_match. }
    intros [stack|] _; [|done].
    apply wb_bind; [apply wb_climb|]. intros [[? ?] []] _; done.
Qed.

Lemma wb_loop_body (p : path) (parents : list (string * attrs))
    (st : LoopState) (el : Element) :
  within_bound (loop_body self p parents st el).
Proof.
  unfold loop_body.
  destruct (String.eqb (tag el) "figure"); [|done].
  set (a := if has_key (attrib el) "__figure_prepend" then _ else _).
  destruct (has_key a "__figure_type"); [|done].
  apply wb_bind; [apply wb_getitem|]. intros fig_type _.
  destruct (_ || _); [done|].
  apply wb_bind; [apply wb_find_depth|].
  intros [a'|a' stack fig_num] _; [done|].
  destruct (stack >? -1); [|done].
  unfold number.
  apply wb_bind; [apply wb_getitem|]. intros l _.
  apply wb_bind; [apply wb_getitem|]. intros c _.
  apply wb_bind; [apply wb_bump|]. intros n _.
  apply wb_bind; [apply wb_update_tag|]. by intros.
Qed.

Lemma wb_iter_children
    (f : nat → LoopState → Element → result (LoopState * Element))
    (l : list Element) :
  Forall (fun c => ∀ i st, within_bound (f i st c)) l →
  ∀ i st, within_bound (iter_children f i st l).
Proof.
  induction 1 as [|c l Hc _ IH]; intros i st; simpl; [done|].
  apply wb_bind; [apply Hc|]. intros [st1 c1] _.
  apply wb_bind; [apply IH|]. by intros [st2 l2] _.
Qed.

(** The paragraph and the span that carry a prefix are walked in two and
    in one step. *)
Lemma iter_loop_span (fuel : nat) (p : path) (parents : list (string * attrs))
    (st : LoopState) (value : string) (tl : option string) :
  within_bound (iter_loop self (S fuel) p parents st (prefix_span value tl)).
Proof. done. Qed.

Lemma iter_loop_new_paragraph (fuel : nat) (p : path)
    (parents : list (string * attrs)) (st : LoopState) (value : string)
    (tl : option string) :
  within_bound
    (iter_loop self (S (S fuel)) p parents st
       (mkElement "p" ∅ None tl [prefix_span value None])).
Proof. done. Qed.

(** With two levels to spare the walk reaches every element, whether it
    is walked as it was or with the prefix it has just got. *)
Lemma iter_loop_bound (fuel : nat) (el : Element) :
  (height el + 2 ≤ fuel)%nat →
  (∀ p parents st, within_bound (iter_loop self fuel p parents st el)) ∧
  (tag el = "figcaption" →
   ∀ value p parents st,
     within_bound (iter_loop self fuel p parents st (prefix_caption value el))).
Proof.
  revert el. induction (lt_wf fuel) as [fuel _ IH]. intros el Hfuel.
  destruct fuel as [|fuel]; [lia|].
  assert (Hkids : ∀ c, c ∈ children el →
            ∀ i st parents',
              within_bound (iter_loop self fuel i parents' st c)).
  { intros c Hc i st parents'. apply height_child in Hc.
    apply (IH fuel); lia. }
  split.
  - intros p parents st. cbn [iter_loop].
    apply wb_bind; [apply wb_loop_body|]. intros [st1 el1] Hbody.
    apply loop_body_children in Hbody.
    apply wb_bind; [|by intros [? ?] _].
    apply wb_iter_children.
    eapply Forall2_transport; [exact Hbody|].
    apply Forall_forall. intros c Hc c1 [->|(Htag & value & ->)] i st'.
    + by apply Hkids.
    + apply height_child in Hc. apply (IH fuel); [lia|lia|done].
  - intros Htag value p parents st. cbn [iter_loop].
    assert (Hnf : tag (prefix_caption value el) ≠ "figure").
    { assert (Ht : tag (prefix_caption value el) = tag el).
      { unfold prefix_caption. by repeat case_match. }
      rewrite Ht, Htag. done. }
    rewrite (loop_body_not_figure _ _ _ _ Hnf). cbn [mbind result_bind].
    apply wb_bind; [|by intros [? ?] _].
    apply wb_iter_children.
    pose proof (height_pos el) as Hpos.
    generalize ((tag (prefix_caption value el),
                 attrib (prefix_caption value el)) :: parents).
    intros parents'. unfold prefix_caption.
    destruct (children el) as [|p0 rest] eqn:Hchildren.
    { (* the prefix gets a paragraph of its own *)
      simpl. apply Forall_cons. split; [|by apply Forall_nil].
      intros i st'. destruct fuel as [|[|fuel]]; [lia..|].
      apply iter_loop_new_paragraph. }
    assert (Hp0 : p0 ∈ children el) by (rewrite Hchildren; left).
    assert (Hrest : Forall (fun c => ∀ i st',
              within_bound (iter_loop self fuel (p ++ [i]) parents' st' c))
              rest).
    { apply Forall_forall. intros c Hc i st'. apply Hkids. by right. }
    pose proof (height_child _ _ Hp0) as Hlt.
    destruct (negb (String.eqb (tag p0) "p")) eqn:Hp.
    { simpl. apply Forall_cons. split.
      - intros i st'. destruct fuel as [|[|fuel]]; [lia..|].
        apply iter_loop_new_paragraph.
      - apply Forall_cons. split; [|done].
        intros i st'. apply Hkids. by left. }
    (* the prefix goes in front of the paragraph the caption starts with *)
    simpl. apply Forall_cons. split; [|done].
    intros i st'. destruct fuel as [|fuel]; [lia|]. cbn [iter_loop].
    apply negb_false_iff, String.eqb_eq in Hp.
    rewrite loop_body_not_figure by (simpl; by rewrite Hp).
    cbn [mbind result_bind].
    apply wb_bind; [|by intros [? ?] _].
    apply wb_iter_children. simpl. apply Forall_cons. split.
    + intros j st''. destruct fuel as [|fuel]; [lia|]. apply iter_loop_span.
    + apply Forall_forall. intros e He j st''.
      apply height_child in He. apply (IH fuel); lia.
Qed.

Lemma wb_modify_at (f : Element → result Element) (p : path) (el : Element) :
  (∀ e, within_bound (f e)) → within_bound (modify_at f p el).
Proof.
  intros Hf. revert el. induction p as [|i p IH]; intros el; simpl; [done|].
  destruct (children el !! i) as [c|]; [|done].
  apply wb_bind; [apply IH|by intros].
Qed.

Lemma wb_clean_up_all (l : list path) (doc : Element) :
  within_bound (clean_up_all l doc).
Proof.
  revert doc. induction l as [|p l IH]; intros doc; simpl; [done|].
  apply wb_bind; [|by intros]. apply wb_modify_at. intros e.
  unfold clean_up. apply wb_bind; [apply wb_getitem|by intros].
Qed.

(** The pass ends in a document or in an exception of the program: the
    bound it gives to its walk is never reached. *)
Lemma run_within_bound (doc : Element) : within_bound (run self doc).
Proof.
  unfold run. apply wb_bind.
  - apply iter_loop_bound. lia.
  - intros [st doc'] _. apply wb_clean_up_all.
Qed.

End Fuel.

(** ** The clean-up *)

Section CleanUp.

Variable self : CaptionTreeprocessor.

(** The climb writes [__figure_level] and nothing else. *)
Lemma climb_keeps (auto_level : Z) (fig_type : string)
    (parents : list (string * attrs)) (stack stack' : Z) (a a' : attrs)
    (skip : bool) :
  climb auto_level fig_type parents stack a = Ok (stack', a', skip) →
  ∀ key, key ≠ "__figure_level" → a' !! key = a !! key.
Proof.
  revert stack a.
  induction parents as [|[ptag pattrib] rest IH]; intros stack a H key Hkey.
  - by injection H as _ <- _.
  - cbn [climb] in H. apply bind_ok in H as (same & _ & H).
    destruct same; [|by eapply IH].
    apply bind_ok in H as (stack1 & _ & H).
    set (a1 := if has_key pattrib "__figure_level" then _ else a) in H.
    assert (Ha1 : a1 !! key = a !! key).
    { unfold a1. destruct (has_key _ _); [|done]. by rewrite lookup_insert_ne. }
    destruct (_ && _) in H; [by injection H as _ <- _|].
    destruct (has_key pattrib "__figure_level");
      [by injection H as _ <- _|].
    rewrite <- Ha1. by eapply IH.
Qed.

Lemma find_depth_keeps (fig_type : string) (parents : list (string * attrs))
    (a : attrs) (d : depth) :
  find_depth self fig_type parents a = Ok d →
  match d with
  | Continue a' | Depth a' _ _ =>
      a' !! "__figure_type" = a !! "__figure_type"
  end.
Proof.
  unfold find_depth. destruct (has_key a "__figure_num").
  - intros H. apply bind_ok in H as (s & _ & H).
    apply bind_ok in H as (n & _ & H). injection H as <-.
    by rewrite lookup_insert_ne, lookup_delete_ne.
  - intros H. apply bind_ok in H as (start & _ & H).
    destruct start as [stack|]; [|by injection H as <-].
    apply bind_ok in H as ([[stack1 a1] skip] & Hclimb & H).
    apply climb_keeps with (key := "__figure_type") in Hclimb; [|done].
    destruct skip; by injection H as <-.
Qed.

Lemma update_tag_keeps (el el' : Element)
    (fig_type fig_num template : string) (prepend : bool) :
  update_tag el fig_type fig_num template prepend = Ok el' →
  ∀ key, key ≠ "id" → attrib el' !! key = attrib el !! key.
Proof.
  unfold update_tag. intros H key Hkey.
  apply bind_ok in H as (kids & _ & H). injection H as <-. simpl.
  destruct (has_key (attrib el) "id"); [done|]. by rewrite lookup_insert_ne.
Qed.

(** An iteration records its element when it carries [__figure_type], and
    the element still carries it afterwards. *)
Lemma loop_body_figs (p : path) (parents : list (string * attrs))
    (st st' : LoopState) (el el' : Element) :
  loop_body self p parents st el = Ok (st', el') →
  figs st' = figs st
  ∨ (figs st' = figs st ++ [p] ∧ is_Some (attrib el' !! "__figure_type")).
Proof.
  unfold loop_body.
  destruct (String.eqb (tag el) "figure"); [|intros [= <- _]; by left].
  set (a := if has_key (attrib el) "__figure_prepend" then _ else _).
  destruct (has_key a "__figure_type") eqn:Hty; [|intros [= <- _]; by left].
  assert (Hsome : is_Some (a !! "__figure_type")).
  { unfold has_key in Hty. by apply bool_decide_eq_true_1 in Hty. }
  intros H. apply bind_ok in H as (fig_type & _ & H). right.
  destruct (_ || _) in H; [by injection H as <- <-|].
  apply bind_ok in H as (d & Hd & H). apply find_depth_keeps in Hd.
  destruct d as [a'|a' stack fig_num].
  { injection H as <- <-. simpl. by rewrite Hd. }
  destruct (stack >? -1); [|injection H as <- <-; simpl; by rewrite Hd].
  unfold number in H.
  apply bind_ok in H as (l & _ & H). apply bind_ok in H as (c & _ & H).
  apply bind_ok in H as (n & _ & H). apply bind_ok in H as (el1 & Hup & H).
  injection H as <- <-. simpl. split; [done|].
  rewrite (update_tag_keeps _ _ _ _ _ _ Hup) by done. simpl. by rewrite Hd.
Qed.

Lemma iter_children_records
    (f : nat → LoopState → Element → result (LoopState * Element))
    (p : path) (l l' : list Element) (i0 : nat) (st st' : LoopState) :
  (∀ i st st' c c', f i st c = Ok (st', c') → records (p ++ [i]) st st' c') →
  iter_children f i0 st l = Ok (st', l') →
  ∃ rs, figs st' = figs st ++ ((p ++.) <$> rs)
        ∧ NoDup rs
        ∧ Forall (fun r => ∃ i r0 c', r = (i0 + i)%nat :: r0
                                      ∧ l' !! i = Some c' ∧ typed_at c' r0) rs.
Proof.
  intros Hf. revert l' i0 st.
  induction l as [|c l IH]; intros l' i0 st H; simpl in H.
  - injection H as <- <-. exists []. simpl. rewrite app_nil_r.
    split; [done|]. split; [constructor|constructor].
  - apply bind_ok in H as ([st1 c1] & Hc & H).
    apply bind_ok in H as ([st2 l2] & Hl & H). injection H as <- <-.
    apply Hf in Hc as (rs1 & Hfigs1 & Hnd1 & Hty1).
    apply IH in Hl as (rs2 & Hfigs2 & Hnd2 & Hty2).
    exists (((i0 ::.) <$> rs1) ++ rs2). split; [|split].
    + rewrite Hfigs2, Hfigs1, fmap_app, <- !app_assoc. do 2 f_equal.
      rewrite <- list_fmap_compose. apply list_fmap_ext.
      intros _ r _. simpl. by rewrite <- app_assoc.
    + apply NoDup_app. split; [|split; [|done]].
      * apply NoDup_fmap_2; [|done]. intros r r' [= ->]. done.
      * intros r Hr Hr'. apply list_elem_of_fmap in Hr as (r1 & -> & _).
        rewrite Forall_forall in Hty2.
        destruct (Hty2 _ Hr') as (i & r0 & c' & Heq & _).
        injection Heq as Hi _. lia.
    + apply Forall_app. split.
      * apply Forall_fmap, Forall_forall. intros r Hr. simpl.
        rewrite Forall_forall in Hty1.
        exists 0%nat, r, c1. split; [by rewrite Nat.add_0_r|]. split; [done|].
        by apply Hty1.
      * eapply Forall_impl; [exact Hty2|].
        intros r (i & r0 & c' & -> & Hi & Hc').
        exists (S i), r0, c'. split; [f_equal; lia|]. by split.
Qed.

Lemma iter_loop_records (fuel : nat) (p : path)
    (parents : list (string * attrs)) (st st' : LoopState)
    (el el' : Element) :
  iter_loop self fuel p parents st el = Ok (st', el') →
  records p st st' el'.
Proof.
  revert p parents st st' el el'.
  induction fuel as [|fuel IH]; intros p parents st st' el el' H;
    simpl in H; [done|].
  apply bind_ok in H as ([st1 el1] & Hbody & H).
  apply bind_ok in H as ([st2 kids] & Hkids & H). injection H as <- <-.
  apply (iter_children_records _ p) in Hkids
    as (rs & Hfigs & Hnd & Hty); [|intros i s s' c c' Hc; by eapply IH].
  assert (Hbelow : Forall (typed_at (set_children kids el1)) rs
                   ∧ [] ∉ rs).
  { split.
    - eapply Forall_impl; [exact Hty|].
      intros r (i & r0 & c' & -> & Hi & fig & Hfig & Hsome).
      exists fig. simpl. by rewrite Hi.
    - intros Hin. rewrite Forall_forall in Hty.
      by destruct (Hty _ Hin) as (i & r0 & c' & Heq & _). }
  destruct Hbelow as [Hbelow Hnil].
  apply loop_body_figs in Hbody as [Hsame|[Hrec Hsome]].
  - exists rs. by rewrite Hfigs, Hsame.
  - exists ([] :: rs). split; [|split].
    + rewrite Hfigs, Hrec, <- app_assoc. simpl. by rewrite app_nil_r.
    + by apply NoDup_cons.
    + constructor; [|done]. by exists (set_children kids el1).
Qed.

(** Cleaning one figure leaves the others where they are, with their
    [__figure_type]. *)
Lemma modify_at_typed (r r' : path) (doc doc' : Element) :
  modify_at clean_up r doc = Ok doc' → r' ≠ r →
  typed_at doc r' → typed_at doc' r'.
Proof.
  revert r' doc doc'.
  induction r as [|i r IH]; intros r' doc doc' H Hne (fig & Hfig & Hsome).
  - simpl in H. unfold clean_up in H.
    apply bind_ok in H as (t & _ & H). injection H as <-.
    destruct r' as [|j r']; [done|]. by exists fig.
  - simpl in H. destruct (children doc !! i) as [c|] eqn:Hc; [|done].
    apply bind_ok in H as (c1 & Hc1 & H). injection H as <-.
    destruct r' as [|j r'].
    + simpl in Hfig. injection Hfig as <-. by eexists.
    + simpl in Hfig. destruct (decide (i = j)) as [->|Hij].
      * rewrite Hc in Hfig.
        destruct (IH r' c c1 Hc1) as (fig' & Hfig' & Hsome');
          [congruence|by exists fig|].
        exists fig'. simpl.
        rewrite list_lookup_insert_eq by (by eapply lookup_lt_Some).
        done.
      * exists fig. simpl. by rewrite list_lookup_insert_ne.
Qed.

Lemma modify_at_returns (r : path) (doc : Element) :
  typed_at doc r → ∃ doc', modify_at clean_up r doc = Ok doc'.
Proof.
  revert doc. induction r as [|i r IH]; intros doc (fig & Hfig & [t Ht]).
  - simpl in Hfig. injection Hfig as <-. simpl. unfold clean_up.
    rewrite (getitem_some _ _ _ Ht). simpl. eauto.
  - simpl in Hfig. simpl. destruct (children doc !! i) as [c|]; [|done].
    destruct (IH c) as [c' ->]; [by exists fig; eauto|]. simpl. eauto.
Qed.

Lemma clean_up_all_returns (rs : list path) (doc : Element) :
  NoDup rs → Forall (typed_at doc) rs → ∃ out, clean_up_all rs doc = Ok out.
Proof.
  revert doc. induction rs as [|r rs IH]; intros doc Hnd Hty; simpl; [eauto|].
  apply NoDup_cons in Hnd as [Hr Hnd]. apply Forall_cons in Hty as [Hty Hrs].
  destruct (modify_at_returns r doc Hty) as [doc' Hdoc']. rewrite Hdoc'.
  simpl. apply IH; [done|].
  rewrite Forall_forall in *. intros r' Hr'.
  eapply modify_at_typed; [exact Hdoc'| |by apply Hrs]. by intros ->.
Qed.

(** Once the loop of the pass has ended, the clean-up returns: the pass
    raises nothing but what its loop raises. *)
Lemma run_clean_up_returns (doc doc' : Element) (st : LoopState) :
  iter_loop self (height doc + 2) [] [] (init_state self) doc = Ok (st, doc') →
  ∃ out, run self doc = Ok out.
Proof.
  intros H. unfold run. rewrite H. simpl.
  apply iter_loop_records in H as (rs & Hfigs & Hnd & Hty).
  assert (Hid : (app (@nil nat) <$> rs) = rs).
  { clear. induction rs as [|r rs IH]; simpl; [done|]. by f_equal. }
  rewrite Hid in Hfigs. simpl in Hfigs. rewrite Hfigs.
  by apply clean_up_all_returns.
Qed.

End CleanUp.

(** ** The numbering pass on documents *)

(** C1: an iteration on a figure whose type is not registered, or has no
    prefix template, returns with [__figure_num] in place, and the clean-up
    of the figure leaves it there as well.  So the pass leaves
    [__figure_num] on the figure of a block of the type [caption] with the
    manual number [3]; running the pass again changes nothing. *)
Theorem manual_number_survives_the_pass (self : CaptionTreeprocessor)
    (p : path) (parents : list (string * attrs)) (st : LoopState)
    (el : Element) (ty num : string) :
  tag el = "figure" →
  attrib el !! "__figure_type" = Some ty →
  attrib el !! "__figure_num" = Some num →
  tp_fig_types self !! ty = None ∨ tp_fig_types self !! ty = Some "" →
  (∃ st' el' out,
     loop_body self p parents st el = Ok (st', el') ∧
     figs st' = figs st ++ [p] ∧
     attrib el' !! "__figure_num" = Some num ∧
     clean_up el' = Ok out ∧
     attrib out !! "__figure_num" = Some num) ∧
  (∃ doc out,
     doc_templateless_manual = Some doc ∧ run tp_default doc = Ok out ∧
     transient <$> figures doc = [["__figure_type"; "__figure_num"]] ∧
     transient <$> figures out = [["__figure_num"]] ∧
     run tp_default out = Ok out).
Proof.
  intros Htag Hty Hnum Htypes. split.
  - unfold loop_body. apply String.eqb_eq in Htag as ->.
    set (a := if has_key (attrib el) "__figure_prepend" then _ else _).
    assert (Ha : ∀ key, key ≠ "__figure_prepend"
                        → a !! key = attrib el !! key).
    { intros key Hkey. unfold a. destruct (has_key _ _); [|done].
      by rewrite lookup_delete_ne. }
    assert (Hty' : a !! "__figure_type" = Some ty) by (by rewrite Ha).
    clearbody a.
    rewrite (has_key_some _ _ _ Hty'), (getitem_some _ _ _ Hty').
    cbn [mbind result_bind].
    assert (Hskip : negb (has_key (tp_fig_types self) ty)
                    || negb (Py.truthy (default "" (tp_fig_types self !! ty)))
                    = true).
    { destruct Htypes as [Hnone|Hempty].
      - by rewrite (has_key_none _ _ Hnone).
      - rewrite Hempty. apply orb_true_r. }
    rewrite Hskip.
    eexists _, _, _. split; [reflexivity|]. split; [reflexivity|].
    split; [simpl; by rewrite Ha|]. split.
    + unfold clean_up. simpl. rewrite (getitem_some _ _ _ Hty').
      cbn [mbind result_bind]. reflexivity.
    + simpl. destruct (has_key (delete "__figure_type" a) "__figure_level").
      * rewrite !lookup_delete_ne by done. by rewrite Ha.
      * rewrite lookup_delete_ne by done. by rewrite Ha.
  - eexists _, _.
    split; [vm_compute; reflexivity|].
    split; [vm_compute; reflexivity|].
    split; [vm_compute; reflexivity|].
    split; vm_compute; reflexivity.
Qed.

Lemma manual_number_survives_the_pass_witness :
  let fig :=
    mkElement "figure"
      (<["__figure_type" := "caption"]> {["__figure_num" := "3"]}) None None
      [paragraph "a"; new_element "figcaption" ∅] in
  ∃ st' el',
    loop_body tp_default [0%nat] [("div", ∅)] (init_state tp_default) fig
    = Ok (st', el')
    ∧ attrib el' !! "__figure_num" = Some "3".
Proof.
  intros fig.
  destruct (manual_number_survives_the_pass tp_default [0%nat] [("div", ∅)]
              (init_state tp_default) fig "caption" "3"
              eq_refl eq_refl eq_refl (or_intror eq_refl))
    as [(st' & el' & out & Hbody & _ & Hnum & _) _].
  exists st', el'. split; [exact Hbody|exact Hnum].
Defined.

(** C3: the climb reads [__figure_type] from every ancestor that is a
    [figure]; the pass raises [KeyError] when one has none. *)
Theorem climb_raises_on_unhinted_figure :
  (∀ auto_level fig_type pattrib rest stack a,
     climb auto_level fig_type
       (("figure", delete "__figure_type" pattrib) :: rest) stack a
     = Raise KeyError) ∧
  ∃ doc,
    doc_in_raw_figure = Some doc ∧
    transient <$> figures doc = [[]; ["__figure_type"]] ∧
    run tp_default doc = Raise KeyError.
Proof.
  split.
  - intros. simpl. unfold getitem. by rewrite lookup_delete_eq.
  - eexists. split; [vm_compute; reflexivity|].
    split; vm_compute; reflexivity.
Qed.

Lemma rev_fmap {A B : Type} (f : A → B) (l : list A) :
  rev (f <$> l) = f <$> rev l.
Proof. rewrite !rev_alt. symmetry. apply fmap_reverse. Qed.

Lemma caption_steps_all (template fig_num value : string)
    (kids : list Element) :
  Py.format template fig_num = Ok value →
  mapR (caption_step template fig_num) kids
  = Ok ((fun c => if String.eqb (tag c) "figcaption"
                  then prefix_caption value c else c) <$> kids).
Proof.
  intros Hfmt. induction kids as [|c kids IH]; [done|].
  cbn [mapR]. rewrite IH. unfold caption_step.
  destruct (String.eqb (tag c) "figcaption") eqn:Htag;
    [rewrite Hfmt|]; cbn; by rewrite Htag.
Qed.

(** C10: whenever the template can be formatted, [update_tag] puts the
    prefix in every [figcaption] child of the figure, whichever way it
    walks the children: the prefix becomes the first thing in the first
    paragraph of each of them.  So on a figure with two [figcaption]
    children the pass puts the prefix in both. *)
Theorem prefix_set_in_every_caption (el : Element)
    (fig_type fig_num template value : string) (prepend : bool) :
  Py.truthy template = true →
  Py.format template fig_num = Ok value →
  (∃ el',
     update_tag el fig_type fig_num template prepend = Ok el' ∧
     children el'
     = (fun c => if String.eqb (tag c) "figcaption"
                 then prefix_caption value c else c) <$> children el) ∧
  (∀ c, ∃ p rest tl more,
        children (prefix_caption value c) = p :: rest ∧ tag p = "p" ∧
        children p = prefix_span value tl :: more) ∧
  (∃ doc out fig,
     doc_two_captions = Some doc ∧ run tp_default doc = Ok out ∧
     find_at [0%nat] out = Some fig ∧ tag fig = "figure" ∧
     caption_prefixes fig = [[Some "Figure 1."]; [Some "Figure 1."]]).
Proof.
  intros Htpl Hfmt. split; [|split].
  - unfold update_tag. rewrite Htpl. destruct prepend.
    + rewrite (caption_steps_all _ _ _ _ Hfmt). simpl. eauto.
    + rewrite (caption_steps_all _ _ _ _ Hfmt). simpl.
      rewrite rev_fmap, rev_involutive. eauto.
  - intros c. unfold prefix_caption.
    destruct (children c) as [|p0 rest] eqn:Hkids.
    { eexists _, _, _, _. simpl. eauto. }
    destruct (String.eqb (tag p0) "p") eqn:Hp; simpl.
    + apply String.eqb_eq in Hp. eexists _, _, _, _. simpl. eauto.
    + eexists _, _, _, _. simpl. eauto.
  - eexists _, _, _.
    split; [vm_compute; reflexivity|].
    split; [vm_compute; reflexivity|].
    split; [vm_compute; reflexivity|].
    split; vm_compute; reflexivity.
Qed.

Lemma prefix_set_in_every_caption_witness :
  let fig :=
    mkElement "figure" ∅ None None
      [new_element "figcaption" ∅; new_element "figcaption" ∅] in
  ∃ el',
    update_tag fig "figure-caption" "1" "Figure {}." false = Ok el'
    ∧ children el'
      = [prefix_caption "Figure 1." (new_element "figcaption" ∅);
         prefix_caption "Figure 1." (new_element "figcaption" ∅)].
Proof.
  intros fig.
  destruct (prefix_set_in_every_caption fig "figure-caption" "1" "Figure {}."
              "Figure 1." false eq_refl eq_refl)
    as [(el' & Hrun & Hkids) _].
  exists el'. split; [exact Hrun|exact Hkids].
Defined.

(** * Further properties of the numbering pass *)

Section Pass.

Variable self : CaptionTreeprocessor.

(** X1.  The clean-up loop of [run] never raises: every figure it visits
    still carries [__figure_type].  So the pass returns exactly when its
    main loop returns, and raises what the main loop raises. *)
Theorem run_raises_what_its_loop_raises (doc : Element) :
  match iter_loop self (height doc + 2) [] [] (init_state self) doc with
  | Ok _ => ∃ out, run self doc = Ok out
  | Raise e => run self doc = Raise e ∧ e ≠ OutOfFuel
  end.
Proof.
  pose proof (iter_loop_bound self (height doc + 2) doc (Nat.le_refl _))
    as [Hbound _].
  specialize (Hbound [] [] (init_state self)).
  destruct (iter_loop _ _ _ _ _ _) as [[st doc']|e] eqn:Hloop.
  - by eapply run_clean_up_returns.
  - split; [unfold run; by rewrite Hloop|]. by intros ->.
Qed.

Lemma loop_body_dom (p : path) (parents : list (string * attrs))
    (st st' : LoopState) (el el' : Element) :
  loop_body self p parents st el = Ok (st', el') →
  dom (last st') = dom (last st) ∧ dom (counters st') = dom (counters st).
Proof.
  unfold loop_body.
  destruct (String.eqb (tag el) "figure"); [|by intros [= <- _]].
  set (a := if has_key (attrib el) "__figure_prepend" then _ else _).
  destruct (has_key a "__figure_type"); [|by intros [= <- _]].
  intros H. apply bind_ok in H as (fig_type & _ & H).
  destruct (_ || _) in H; [by injection H as <- _|].
  apply bind_ok in H as (d & _ & H).
  destruct d as [a'|a' stack fig_num]; [by injection H as <- _|].
  destruct (stack >? -1); [|by injection H as <- _].
  unfold number in H.
  apply bind_ok in H as (l & Hl & H). apply getitem_ok in Hl.
  apply bind_ok in H as (c & Hc & H). apply getitem_ok in Hc.
  apply bind_ok in H as (n & _ & H). apply bind_ok in H as (el1 & _ & H).
  injection H as <- _. simpl.
  split; apply dom_insert_lookup_L; eauto.
Qed.

(** X2.  The state of the loop stays well formed: the pass starts with a
    counter [[0]] and depth [0] for exactly the registered types, and an
    iteration that returns keeps, for every type, a counter with one slot
    per level down to the depth last visited, never a negative slot, and
    the same set of types. *)
Theorem loop_keeps_counters_well_formed (p : path)
    (parents : list (string * attrs)) (st st' : LoopState)
    (el el' : Element) :
  state_ok st →
  loop_body self p parents st el = Ok (st', el') →
  (state_ok (init_state self)
   ∧ dom (last (init_state self)) = dom (tp_fig_types self)
   ∧ dom (counters (init_state self)) = dom (tp_fig_types self))
  ∧ state_ok st'
  ∧ dom (last st') = dom (last st)
  ∧ dom (counters st') = dom (counters st).
Proof.
  intros Hst Hbody. split; [|split].
  - split; [apply init_state_ok|]. unfold init_state. simpl.
    by rewrite !dom_fmap_L.
  - by eapply loop_body_state_ok.
  - by eapply loop_body_dom.
Qed.

End Pass.

Lemma loop_keeps_counters_well_formed_witness :
  let fig :=
    mkElement "figure" {["__figure_type" := "figure-caption"]} None None
      [new_element "figcaption" ∅] in
  ∃ st' el',
    loop_body tp_default [0%nat] [("div", ∅)] (init_state tp_default) fig
    = Ok (st', el')
    ∧ state_ok st' ∧ dom (counters st') = dom default_types.
Proof.
  intros fig.
  assert (Hbody : ∃ r, loop_body tp_default [0%nat] [("div", ∅)]
                         (init_state tp_default) fig = Ok r).
  { eexists. vm_compute. reflexivity. }
  destruct Hbody as [[st' el'] Hbody].
  destruct (loop_keeps_counters_well_formed tp_default [0%nat] [("div", ∅)]
              (init_state tp_default) st' fig el'
              (init_state_ok tp_default) Hbody)
    as [(_ & _ & Hinit) (Hok & _ & Hdom)].
  exists st', el'. split; [exact Hbody|]. split; [exact Hok|].
  rewrite Hdom. exact Hinit.
Defined.

Section Hints.

Variable self : CaptionTreeprocessor.

Lemma set_attrib_same (el : Element) : set_attrib (attrib el) el = el.
Proof. by destruct el. Qed.

Lemma set_children_same (el : Element) : set_children (children el) el = el.
Proof. by destruct el. Qed.

Lemma elements_self (el : Element) : el ∈ elements el.
Proof. destruct el. simpl. apply elem_of_cons. by left. Qed.

Lemma elements_child (el c e : Element) :
  c ∈ children el → e ∈ elements c → e ∈ elements el.
Proof.
  intros Hc He. destruct el as [t a tx tl kids]. simpl in *.
  apply elem_of_cons. right.
  induction kids as [|k kids IH]; [by apply elem_of_nil in Hc|].
  simpl. apply elem_of_app.
  apply elem_of_cons in Hc as [->|Hc]; [by left|right; by apply IH].
Qed.

Lemma hint_free_child (el c : Element) :
  hint_free el → c ∈ children el → hint_free c.
Proof. intros H Hc e He. apply H. by eapply elements_child. Qed.

Lemma iter_children_same
    (f : nat → LoopState → Element → result (LoopState * Element))
    (l : list Element) :
  (∀ i st c, c ∈ l → f i st c = Ok (st, c)) →
  ∀ i st, iter_children f i st l = Ok (st, l).
Proof.
  induction l as [|c l IH]; intros Hf i st; [done|].
  simpl. rewrite Hf by (apply elem_of_cons; by left). simpl.
  rewrite IH; [done|]. intros j st' c' Hc'. apply Hf.
  apply elem_of_cons. by right.
Qed.

Lemma iter_loop_hint_free (fuel : nat) (el : Element) :
  (height el ≤ fuel)%nat → hint_free el →
  ∀ p parents st, iter_loop self fuel p parents st el = Ok (st, el).
Proof.
  revert el. induction fuel as [|fuel IH]; intros el Hfuel Hfree p parents st.
  - pose proof (height_pos el). lia.
  - assert (Hbody : loop_body self p parents st el = Ok (st, el)).
    { unfold loop_body. destruct (String.eqb (tag el) "figure") eqn:Htag; [|done].
      apply String.eqb_eq in Htag.
      destruct (Hfree el (elements_self el) Htag) as [Hty Hpre].
      rewrite (has_key_none _ _ Hpre), (has_key_none _ _ Hty).
      by rewrite set_attrib_same. }
    cbn [iter_loop]. rewrite Hbody. simpl.
    rewrite iter_children_same; [simpl; by rewrite set_children_same|].
    intros i st' c Hc. apply IH.
    + pose proof (height_child el c Hc). lia.
    + by eapply hint_free_child.
Qed.

(** X3.  The pass leaves alone what the caption blocks did not make: on a
    document none of whose figures carries [__figure_type] or
    [__figure_prepend] it returns, and the document is unchanged, whatever
    the configuration and whatever else the figures carry. *)
Theorem run_leaves_unhinted_document (doc : Element) :
  hint_free doc → run self doc = Ok doc.
Proof.
  intros Hfree. unfold run.
  rewrite iter_loop_hint_free by (done || lia). done.
Qed.

Lemma find_depth_drops_num (fig_type : string)
    (parents : list (string * attrs)) (a : attrs) (d : depth) :
  find_depth self fig_type parents a = Ok d →
  match d with
  | Continue a' | Depth a' _ _ =>
      a' !! "__figure_num" = None
      ∧ a' !! "__figure_prepend" = a !! "__figure_prepend"
  end.
Proof.
  unfold find_depth. destruct (has_key a "__figure_num") eqn:Hnum.
  - intros H. apply bind_ok in H as (s & _ & H).
    apply bind_ok in H as (n & _ & H). injection H as <-.
    rewrite !lookup_insert_ne by done.
    rewrite lookup_delete_eq, lookup_delete_ne by done. done.
  - assert (Hnone : a !! "__figure_num" = None).
    { destruct (a !! "__figure_num") eqn:E; [|done].
      by rewrite (has_key_some _ _ _ E) in Hnum. }
    intros H. apply bind_ok in H as (start & _ & H).
    destruct start as [stack|]; [|injection H as <-; done].
    apply bind_ok in H as ([[stack' a'] skip] & Hclimb & H).
    pose proof (climb_keeps _ _ _ _ _ _ _ _ Hclimb) as Hkeep.
    destruct skip; injection H as <-;
      rewrite !Hkeep by done; done.
Qed.

(** X4.  An iteration on a figure consumes the hints it reads: whenever it
    returns, the figure no longer carries [__figure_prepend], and when its
    type is registered with a template it carries no [__figure_num]
    either.  The clean-up loop has only [__figure_type] and
    [__figure_level] left to remove. *)
Theorem iteration_consumes_hints (p : path)
    (parents : list (string * attrs)) (st st' : LoopState)
    (el el' : Element) (fig_type template : string) :
  tag el = "figure" →
  loop_body self p parents st el = Ok (st', el') →
  attrib el' !! "__figure_prepend" = None
  ∧ (attrib el !! "__figure_type" = Some fig_type →
     tp_fig_types self !! fig_type = Some template →
     template ≠ "" →
     attrib el' !! "__figure_num" = None).
Proof.
  intros Htag. unfold loop_body.
  apply String.eqb_eq in Htag. rewrite Htag.
  set (a := if has_key (attrib el) "__figure_prepend" then _ else _).
  assert (Hpre : a !! "__figure_prepend" = None).
  { subst a. destruct (has_key (attrib el) "__figure_prepend") eqn:E.
    - apply lookup_delete_eq.
    - destruct (attrib el !! "__figure_prepend") eqn:E'; [|done].
      by rewrite (has_key_some _ _ _ E') in E. }
  assert (Hty : a !! "__figure_type" = attrib el !! "__figure_type").
  { subst a. destruct (has_key (attrib el) "__figure_prepend"); [|done].
    by rewrite lookup_delete_ne. }
  clearbody a.
  destruct (has_key a "__figure_type") eqn:Hhas.
  2: { intros [= _ <-]. split; [done|]. intros Hsome. rewrite <- Hty in Hsome.
       by rewrite (has_key_some _ _ _ Hsome) in Hhas. }
  intros H. apply bind_ok in H as (ty & Hget & H).
  apply getitem_ok in Hget.
  destruct (negb (has_key (tp_fig_types self) ty)
            || negb (Py.truthy (default "" (tp_fig_types self !! ty))))
    eqn:Hskip.
  { injection H as _ <-. split; [done|]. intros Hsome Hreg Hne.
    rewrite <- Hty, Hget in Hsome. injection Hsome as ->.
    rewrite (has_key_some _ _ _ Hreg), Hreg in Hskip. simpl in Hskip.
    destruct template; [done|discriminate]. }
  apply bind_ok in H as (d & Hd & H).
  pose proof (find_depth_drops_num _ _ _ _ Hd) as Hdrop.
  destruct d as [a'|a' stack fig_num]; destruct Hdrop as [Hn Hp];
    rewrite Hpre in Hp.
  { by injection H as _ <-. }
  destruct (stack >? -1); [|by injection H as _ <-].
  unfold number in H.
  apply bind_ok in H as (l & _ & H). apply bind_ok in H as (c & _ & H).
  apply bind_ok in H as (n & _ & H). apply bind_ok in H as (el1 & Hup & H).
  injection H as _ <-.
  pose proof (update_tag_keeps _ _ _ _ _ _ Hup) as Hkeep.
  rewrite !Hkeep by done. done.
Qed.

End Hints.

Lemma run_leaves_unhinted_document_witness :
  let doc :=
    root_of [mkElement "figure" {["__figure_num" := "x"]} None None
               [new_element "figcaption" ∅]] in
  hint_free doc ∧ run tp_default doc = Ok doc.
Proof.
  intros doc.
  assert (Hfree : hint_free doc).
  { intros el Hel _. vm_compute in Hel.
    repeat (apply elem_of_cons in Hel as [->|Hel]; [done|]).
    by apply elem_of_nil in Hel. }
  split; [exact Hfree|].
  exact (run_leaves_unhinted_document tp_default doc Hfree).
Defined.

Lemma iteration_consumes_hints_witness :
  let fig :=
    mkElement "figure"
      {["__figure_type" := "figure-caption"; "__figure_prepend" := "1";
        "__figure_num" := "2"]} None None
      [new_element "figcaption" ∅] in
  ∃ st' el',
    loop_body tp_default [] [] (init_state tp_default) fig = Ok (st', el')
    ∧ attrib el' !! "__figure_prepend" = None
    ∧ attrib el' !! "__figure_num" = None.
Proof.
  intros fig.
  assert (Hbody : ∃ r, loop_body tp_default [] [] (init_state tp_default) fig
                       = Ok r).
  { eexists. vm_compute. reflexivity. }
  destruct Hbody as [[st' el'] Hbody].
  destruct (iteration_consumes_hints tp_default [] [] (init_state tp_default)
              st' fig el' "figure-caption" "Figure {}."
              eq_refl Hbody) as [Hpre Hnum].
  exists st', el'. split; [exact Hbody|]. split; [exact Hpre|].
  apply Hnum; [vm_compute; reflexivity|vm_compute; reflexivity|done].
Defined.

(** ** The order of ordinals *)

Section Order.

Implicit Types a b c counter natural : list Z.







End Order.


(** ** The depth of a figure *)

Lemma filter_length_cons {A : Type} (f : A → bool) (x : A) (l : list A) :
  length (filter f (x :: l))
  = if f x then S (length (filter f l)) else length (filter f l).
Proof.
  rewrite filter_cons. destruct (f x) eqn:E; case_decide as H; simpl; done.
Qed.

Lemma climb_counts (auto_level : Z) (ty : string)
    (parents : list (string * attrs)) (stack : Z) (a : attrs) :
  Forall plain_figure parents →
  auto_level = 0
  ∨ stack + Z.of_nat (length (filter (is_figure_of ty) parents)) < auto_level →
  climb auto_level ty parents stack a
  = Ok (stack + Z.of_nat (length (filter (is_figure_of ty) parents)), a, false).
Proof.
  intros Hplain. revert stack.
  induction Hplain as [|[ptag pattrib] rest Hp Hrest IH]; intros stack Hlevel.
  - simpl. by rewrite Z.add_0_r.
  - rewrite filter_length_cons in *.
    set (n := length (filter (is_figure_of ty) rest)) in *. clearbody n.
    cbn [climb]. unfold is_figure_of in Hlevel |- *.
    unfold plain_figure in Hp. simpl in Hp, Hlevel |- *.
    destruct (String.eqb ptag "figure") eqn:Htag; simpl in Hlevel |- *;
      [|by apply IH].
    apply String.eqb_eq in Htag.
    destruct (Hp Htag) as [[t Ht] Hlv].
    rewrite (getitem_some _ _ _ Ht). simpl. rewrite Ht in Hlevel |- *.
    destruct (String.eqb t ty) eqn:Hsame.
    + apply String.eqb_eq in Hsame. subst t.
      rewrite bool_decide_eq_true_2 in Hlevel |- * by done.
      rewrite (has_key_none _ _ Hlv). simpl.
      assert (Hgo : negb (auto_level =? 0)%Z && (stack + 1 >=? auto_level)
                    = false).
      { destruct Hlevel as [->|Hlt]; [done|].
        apply andb_false_iff. right. lia. }
      rewrite Hgo. rewrite IH by lia. do 3 f_equal. lia.
    + apply String.eqb_neq in Hsame.
      rewrite bool_decide_eq_false_2 in Hlevel |- * by congruence.
      by apply IH.
Qed.

(** X6.  Without level overrides the depth of a figure is the number of
    its ancestors that are figures of its type: for a figure with neither
    a manual number nor a level, below ancestors without a level, the
    depth computation returns that number, changes no attribute and does
    not skip, provided the ceiling is off or the number lies below it.  A
    configured [auto_level] of zero or less turns the ceiling off. *)
Theorem depth_counts_ancestors_of_type (types : gmap string string)
    (config : Config) (ty : string) (parents : list (string * attrs))
    (a : attrs) :
  a !! "__figure_num" = None → a !! "__figure_level" = None →
  Forall plain_figure parents →
  cfg_auto_level config ≤ 0
  ∨ Z.of_nat (length (filter (is_figure_of ty) parents))
    < cfg_auto_level config →
  find_depth (tp_init types config) ty parents a
  = Ok (Depth a (Z.of_nat (length (filter (is_figure_of ty) parents))) None).
Proof.
  intros Hnum Hlv Hplain Hlevel. unfold find_depth.
  rewrite (has_key_none _ _ Hnum), (has_key_none _ _ Hlv). simpl.
  rewrite climb_counts; [done|done|]. simpl. lia.
Qed.

Lemma depth_counts_ancestors_of_type_witness :
  let parents :=
    [("figure", {["__figure_type" := "figure-caption"]}); ("div", ∅);
     ("figure", {["__figure_type" := "table-caption"]});
     ("figure", ({["__figure_type" := "figure-caption"]} : attrs))] in
  find_depth (tp_init default_types default_config) "figure-caption"
    parents ∅
  = Ok (Depth ∅ 2 None).
Proof.
  intros parents.
  assert (Hplain : Forall plain_figure parents).
  { unfold parents, plain_figure.
    apply Forall_cons; split;
      [intros _; split; [eexists; reflexivity|reflexivity]|].
    apply Forall_cons; split; [intros H; discriminate H|].
    apply Forall_cons; split;
      [intros _; split; [eexists; reflexivity|reflexivity]|].
    apply Forall_cons; split;
      [intros _; split; [eexists; reflexivity|reflexivity]|].
    apply Forall_nil. exact I. }
  assert (Hcount : Z.of_nat (length (filter (is_figure_of "figure-caption")
                                       parents)) = 2)
    by (vm_compute; reflexivity).
  pose proof (depth_counts_ancestors_of_type default_types default_config
                "figure-caption" parents ∅ eq_refl eq_refl Hplain) as H.
  rewrite Hcount in H. apply H. left. simpl. lia.
Defined.

(** ** [int] reads back what [str] writes *)

Lemma pretty_N_char_digit (m : N) :
  (m < 10)%N →
  Py.is_digit (pretty_N_char m) = true
  ∧ Py.digit_val (pretty_N_char m) = Z.of_N m.
Proof.
  intros Hm.
  assert (m = 0 ∨ m = 1 ∨ m = 2 ∨ m = 3 ∨ m = 4 ∨ m = 5 ∨ m = 6 ∨ m = 7
          ∨ m = 8 ∨ m = 9)%N as H by lia.
  destruct_or!; subst m; split; reflexivity.
Qed.

Lemma digit_not_sign (c : ascii) :
  Py.is_digit c = true →
  Py.is_int_space c = false
  ∧ Ascii.eqb c "-" = false ∧ Ascii.eqb c "+" = false.
Proof.
  destruct c as [[] [] [] [] [] [] [] []]; intros H;
    vm_compute in H; try discriminate H; repeat split; reflexivity.
Qed.

Lemma digits_val_snoc (acc : Z) (l : list ascii) (c : ascii) :
  digits_val acc (l ++ [c]) = 10 * digits_val acc l + Py.digit_val c.
Proof. unfold digits_val. by rewrite fold_left_app. Qed.

(** The digits [pretty_N_go] puts in front of its accumulator. *)
Lemma pretty_N_go_digits (x : N) :
  ∃ ds, (∀ s, list_ascii_of_string (pretty_N_go x s)
              = ds ++ list_ascii_of_string s)
        ∧ Forall (fun c => Py.is_digit c = true) ds
        ∧ digits_val 0 ds = Z.of_N x
        ∧ ((0 < x)%N → ds ≠ []).
Proof.
  induction (N.lt_wf_0 x) as [x _ IH].
  assert (x = 0 ∨ 0 < x)%N as [->|Hx] by lia.
  { exists []. repeat split; [done|lia]. }
  destruct (IH (x `div` 10)%N) as (ds & Hds & Hdig & Hval & _).
  { by apply N.div_lt. }
  destruct (pretty_N_char_digit (x `mod` 10)%N) as [Hc Hv].
  { by apply N.mod_lt. }
  exists (ds ++ [pretty_N_char (x `mod` 10)]). split; [|split; [|split]].
  - intros s. rewrite pretty_N_go_step by done.
    rewrite Hds. simpl. by rewrite <- app_assoc.
  - apply Forall_app. split; [done|].
    apply Forall_cons. split; [done|by apply Forall_nil].
  - rewrite digits_val_snoc, Hval, Hv.
    pose proof (N.div_mod x 10). lia.
  - intros _. by destruct ds.
Qed.

Lemma int_digits_digits (ds : list ascii) :
  Forall (fun c => Py.is_digit c = true) ds →
  ∀ seen acc, ds ≠ [] ∨ seen = true →
              Py.int_digits seen acc ds = Some (digits_val acc ds).
Proof.
  induction 1 as [|c ds Hc Hds IH]; intros seen acc Hne.
  - by destruct Hne as [?| ->].
  - simpl. rewrite Hc. apply IH. by right.
Qed.

Lemma int_strip_id (l : list ascii) :
  Forall (fun c => Py.is_int_space c = false) l → Py.int_strip l = l.
Proof.
  assert (Hl : ∀ l', Forall (fun c => Py.is_int_space c = false) l' →
                     Py.int_lstrip l' = l').
  { intros l' H. destruct H as [|c l' Hc _]; [done|]. simpl. by rewrite Hc. }
  intros H. unfold Py.int_strip.
  rewrite (Hl l H), Hl by by apply Forall_rev. apply rev_involutive.
Qed.

Lemma int_of_digits (ds : list ascii) :
  Forall (fun c => Py.is_digit c = true) ds → ds ≠ [] →
  (∀ s, list_ascii_of_string s = ds →
        Py.int s = Ok (digits_val 0 ds))
  ∧ (∀ s, list_ascii_of_string s = "-"%char :: ds →
          Py.int s = Ok (- digits_val 0 ds)).
Proof.
  intros Hds Hne.
  assert (Hsp : Forall (fun c => Py.is_int_space c = false) ds).
  { eapply Forall_impl; [exact Hds|]. intros c Hc.
    by destruct (digit_not_sign c Hc). }
  pose proof (int_digits_digits ds Hds false 0 (or_introl Hne)) as Hval.
  destruct ds as [|d ds']; [done|].
  apply Forall_cons in Hds as [Hd _].
  destruct (digit_not_sign d Hd) as (_ & Hminus & Hplus).
  split; intros s Hs; unfold Py.int; rewrite Hs.
  - rewrite int_strip_id by done.
    rewrite Hminus, Hplus, Hd, Hval. done.
  - rewrite int_strip_id by (apply Forall_cons; by split).
    cbn [Ascii.eqb Bool.eqb]. rewrite Hd, Hval. done.
Qed.

(** [int(str(n)) == n] *)
Lemma int_str (n : Z) : Py.int (Py.str n) = Ok n.
Proof.
  destruct n as [|p|p]; [reflexivity| |].
  - destruct (pretty_N_go_digits (N.pos p)) as (ds & Hds & Hdig & Hval & Hne).
    destruct (int_of_digits ds Hdig (Hne ltac:(lia))) as [Hint _].
    rewrite (Hint (Py.str (Z.pos p))), Hval; [done|].
    unfold Py.str, pretty, pretty_Z, pretty, pretty_positive, pretty, pretty_N.
    rewrite decide_False by done. rewrite Hds. simpl. apply app_nil_r.
  - destruct (pretty_N_go_digits (N.pos p)) as (ds & Hds & Hdig & Hval & Hne).
    destruct (int_of_digits ds Hdig (Hne ltac:(lia))) as [_ Hint].
    rewrite (Hint (Py.str (Z.neg p))), Hval; [done|].
    unfold Py.str, pretty, pretty_Z, pretty, pretty_positive, pretty, pretty_N.
    rewrite decide_False by done.
    change ("-"%char :: list_ascii_of_string (pretty_N_go (N.pos p) "")
            = "-"%char :: ds).
    rewrite Hds. simpl. by rewrite app_nil_r.
Qed.

Lemma mapR_int_str (l : list Z) : mapR Py.int (Py.str <$> l) = Ok l.
Proof.
  induction l as [|n l IH]; [done|].
  change (Py.str <$> n :: l) with (Py.str n :: (Py.str <$> l)).
  cbn [mapR]. rewrite int_str. cbn [mbind result_bind].
  rewrite IH. done.
Qed.

Section Levels.

Variable self : CaptionTreeprocessor.

(** X7.  A manual number in canonical form is read back component by
    component: when [__figure_num] holds the decimal forms of the integers
    of a non-empty list joined by dots, the depth computation returns, with
    that list as the manual number and its length less one as the depth;
    it removes [__figure_num] and records a level that [int] reads back as
    the number of components. *)
Theorem manual_number_read_back (ty : string)
    (parents : list (string * attrs)) (a : attrs) (l : list Z) :
  l ≠ [] →
  a !! "__figure_num" = Some (Py.join "." (Py.str <$> l)) →
  ∃ a',
    find_depth self ty parents a
    = Ok (Depth a' (Z.of_nat (length l) - 1) (Some l))
    ∧ a' !! "__figure_num" = None
    ∧ ∃ lv, a' !! "__figure_level" = Some lv
            ∧ Py.int lv = Ok (Z.of_nat (length l)).
Proof.
  intros Hne Hnum. unfold find_depth.
  rewrite (has_key_some _ _ _ Hnum), (getitem_some _ _ _ Hnum).
  cbn [mbind result_bind].
  rewrite split_ordinal by done. rewrite mapR_int_str.
  cbn [mbind result_bind]. eexists. split; [reflexivity|]. split.
  - rewrite lookup_insert_ne by done. apply lookup_delete_eq.
  - eexists. split; [apply lookup_insert_eq|apply int_str].
Qed.

Lemma level_ok_insert (a : attrs) (m : Z) :
  0 ≤ m → level_ok (<["__figure_level" := Py.str m]> a).
Proof.
  intros Hm lv. rewrite lookup_insert_eq. intros [= <-].
  exists m. split; [apply int_str|done].
Qed.

Lemma level_ok_same (a a' : attrs) :
  a' !! "__figure_level" = a !! "__figure_level" → level_ok a → level_ok a'.
Proof. intros E H lv Hlv. apply H. by rewrite <- E. Qed.

Lemma climb_level_ok (auto_level : Z) (ty : string)
    (parents : list (string * attrs)) :
  Forall hinted parents →
  ∀ stack a stack' a' skip,
    -1 ≤ stack → level_ok a →
    climb auto_level ty parents stack a = Ok (stack', a', skip) →
    level_ok a'.
Proof.
  induction 1 as [|[ptag pattrib] rest Hp Hrest IH];
    intros stack a stack' a' skip Hs Ha H.
  - by injection H as _ <- _.
  - cbn [climb] in H. apply bind_ok in H as (same & Hsame & H).
    destruct same; [|by eapply IH].
    destruct (String.eqb ptag "figure") eqn:Htag; [|discriminate Hsame].
    apply String.eqb_eq in Htag. destruct (Hp Htag) as [_ Hlevel].
    simpl in Hlevel.
    destruct (has_key pattrib "__figure_level").
    + apply bind_ok in H as (stack1 & Hs1 & H).
      apply bind_ok in Hs1 as (lv & Hlv & Hs1). apply getitem_ok in Hlv.
      apply bind_ok in Hs1 as (n & Hn & Hs1). injection Hs1 as <-.
      destruct (Hlevel lv Hlv) as (n' & Hn' & Hpos).
      rewrite Hn in Hn'. injection Hn' as <-.
      assert (Hnew : level_ok (<["__figure_level" :=
                                   Py.str (stack + (n + 1) + 1)]> a))
        by (apply level_ok_insert; lia).
      destruct (_ && _) in H; by injection H as _ <- _.
    + cbn [mbind result_bind] in H.
      destruct (_ && _) in H; [by injection H as _ <- _|].
      eapply IH; [|exact Ha|exact H]. lia.
Qed.

Lemma find_depth_level_ok (ty : string) (parents : list (string * attrs))
    (a : attrs) (d : depth) :
  Forall hinted parents → level_ok a →
  find_depth self ty parents a = Ok d →
  match d with Continue a' | Depth a' _ _ => level_ok a' end.
Proof.
  intros Hp Ha. unfold find_depth. destruct (has_key a "__figure_num").
  - intros H. apply bind_ok in H as (s & _ & H).
    apply bind_ok in H as (n & _ & H). injection H as <-.
    apply level_ok_insert. lia.
  - intros H. apply bind_ok in H as (start & Hstart & H).
    destruct start as [stack|]; [|by injection H as <-].
    assert (Hs : -1 ≤ stack).
    { destruct (has_key a "__figure_level").
      - apply bind_ok in Hstart as (lv & Hlv & Hstart).
        apply getitem_ok in Hlv.
        apply bind_ok in Hstart as (n & Hn & Hstart).
        destruct (Ha lv Hlv) as (n' & Hn' & Hpos).
        rewrite Hn in Hn'. injection Hn' as <-.
        destruct (_ && _) in Hstart; [discriminate Hstart|].
        injection Hstart as <-. lia.
      - injection Hstart as <-. lia. }
    apply bind_ok in H as ([[stack' a'] skip] & Hclimb & H).
    pose proof (climb_level_ok _ _ _ Hp _ _ _ _ _ Hs Ha Hclimb).
    destruct skip; by injection H as <-.
Qed.

Lemma update_tag_tag (el el' : Element)
    (fig_type fig_num template : string) (prepend : bool) :
  update_tag el fig_type fig_num template prepend = Ok el' →
  tag el' = tag el ∧ text el' = text el ∧ tail el' = tail el.
Proof.
  unfold update_tag. intros H.
  apply bind_ok in H as (kids & _ & H). by injection H as <-.
Qed.

Lemma loop_body_attrs (p : path) (parents : list (string * attrs))
    (st st' : LoopState) (el el' : Element) :
  loop_body self p parents st el = Ok (st', el') →
  tag el' = tag el
  ∧ attrib el' !! "__figure_type" = attrib el !! "__figure_type"
  ∧ (Forall hinted parents → level_ok (attrib el) → level_ok (attrib el')).
Proof.
  unfold loop_body.
  destruct (String.eqb (tag el) "figure"); [|by intros [= _ <-]].
  set (a := if has_key (attrib el) "__figure_prepend" then _ else _).
  assert (Hty : a !! "__figure_type" = attrib el !! "__figure_type").
  { subst a. destruct (has_key (attrib el) "__figure_prepend"); [|done].
    by rewrite lookup_delete_ne. }
  assert (Hlv : level_ok (attrib el) → level_ok a).
  { apply level_ok_same. subst a.
    destruct (has_key (attrib el) "__figure_prepend"); [|done].
    by rewrite lookup_delete_ne. }
  clearbody a.
  destruct (has_key a "__figure_type"); [|by intros [= _ <-]].
  intros H. apply bind_ok in H as (fig_type & _ & H).
  destruct (_ || _) in H; [injection H as _ <-; simpl; by auto|].
  apply bind_ok in H as (d & Hd & H).
  pose proof (find_depth_keeps self _ _ _ _ Hd) as Hkeep.
  pose proof (λ Hp Ha, find_depth_level_ok _ _ _ _ Hp Ha Hd) as Hd'.
  destruct d as [a'|a' stack fig_num].
  { injection H as _ <-. simpl. rewrite Hkeep. by auto. }
  destruct (stack >? -1);
    [|injection H as _ <-; simpl; rewrite Hkeep; by auto].
  unfold number in H.
  apply bind_ok in H as (l & _ & H). apply bind_ok in H as (c & _ & H).
  apply bind_ok in H as (n & _ & H). apply bind_ok in H as (el1 & Hup & H).
  injection H as _ <-.
  destruct (update_tag_tag _ _ _ _ _ _ Hup) as (-> & _).
  pose proof (update_tag_keeps _ _ _ _ _ _ Hup) as Hk.
  rewrite !Hk by done. simpl. rewrite Hkeep.
  split; [done|]. split; [done|]. intros Hp Ha.
  eapply level_ok_same; [by apply Hk|]. simpl. by auto.
Qed.

(** X8.  The hints of the caption blocks stay readable for the figures
    nested below: when a figure carries a type and a level that reads as
    a natural number, and so do the figures among its ancestors, then
    after its iteration it still is a figure with the same type and a
    level that reads as a natural number, also when the iteration wrote
    the level itself. *)
Theorem iteration_keeps_figures_hinted (p : path)
    (parents : list (string * attrs)) (st st' : LoopState)
    (el el' : Element) :
  Forall hinted parents → hinted (tag el, attrib el) →
  loop_body self p parents st el = Ok (st', el') →
  hinted (tag el', attrib el')
  ∧ attrib el' !! "__figure_type" = attrib el !! "__figure_type".
Proof.
  intros Hp Hel Hbody.
  destruct (loop_body_attrs _ _ _ _ _ _ Hbody) as (Htag & Hty & Hlv).
  split; [|done]. intros Hfig. simpl in *. rewrite Htag in Hfig.
  destruct (Hel Hfig) as [Hsome Hlevel]. simpl in *.
  rewrite Hty. split; [done|]. by apply Hlv.
Qed.

End Levels.

Lemma manual_number_read_back_witness :
  ∃ a',
    find_depth tp_default "figure-caption" []
      {["__figure_num" := "2.10.3"]}
    = Ok (Depth a' 2 (Some [2; 10; 3]))
    ∧ a' !! "__figure_level" = Some "3".
Proof.
  destruct (manual_number_read_back tp_default "figure-caption" []
              {["__figure_num" := "2.10.3"]} [2; 10; 3])
    as (a' & Hd & _ & lv & Hlv & _); [done|reflexivity|].
  exists a'. split; [exact Hd|].
  vm_compute in Hd. injection Hd as <-. reflexivity.
Defined.

Lemma iteration_keeps_figures_hinted_witness :
  let parents : list (string * attrs) :=
    [("figure", {["__figure_type" := "figure-caption";
                  "__figure_level" := "2"]})] in
  let fig :=
    mkElement "figure" {["__figure_type" := "figure-caption"]} None None
      [new_element "figcaption" ∅] in
  ∃ st' el',
    loop_body tp_default [0%nat] parents (init_state tp_default) fig
    = Ok (st', el')
    ∧ hinted (tag el', attrib el')
    ∧ attrib el' !! "__figure_level" = Some "4".
Proof.
  intros parents fig.
  assert (Hbody : ∃ r, loop_body tp_default [0%nat] parents
                         (init_state tp_default) fig = Ok r).
  { eexists. vm_compute. reflexivity. }
  destruct Hbody as [[st' el'] Hbody].
  assert (Hp : Forall hinted parents).
  { apply Forall_cons. split; [|by apply Forall_nil].
    intros _. split; [eexists; reflexivity|].
    intros lv Hlv. vm_compute in Hlv. injection Hlv as <-.
    exists 2. split; [reflexivity|lia]. }
  assert (Hel : hinted (tag fig, attrib fig)).
  { intros _. split; [eexists; reflexivity|]. intros lv Hlv.
    vm_compute in Hlv. discriminate Hlv. }
  destruct (iteration_keeps_figures_hinted tp_default [0%nat] parents
              (init_state tp_default) st' fig el' Hp Hel Hbody)
    as [Hh _].
  exists st', el'. split; [exact Hbody|]. split; [exact Hh|].
  vm_compute in Hbody. injection Hbody as _ <-. reflexivity.
Defined.

(** * Further properties of the caption block *)

Section Blocks.

Import Caption.

Lemma attach_tag (self : Block) (fig : Element) :
  tag (attach self fig) = tag fig
  ∧ attrib (attach self fig) = stamp self (attrib fig)
  ∧ children (attach self fig)
    = (if prepend self then new_element "figcaption" ∅ :: children fig
       else children fig ++ [new_element "figcaption" ∅]).
Proof. unfold attach. by destruct (prepend self). Qed.

(** The figure [on_create] works on: the last child when it is reusable,
    a fresh figure otherwise. *)
Lemma on_create_shape (self : Block) (parent : Element) :
  ∃ fig0 others,
    tag fig0 = "figure"
    ∧ (attrib fig0 = ∅ ∨ last_child (children parent) = Some fig0)
    ∧ on_create self parent
      = (set_caption
           (Some (if prepend self then 0%nat
                  else pred (length (children (attach self fig0))))) self,
         set_children (others ++ [attach self fig0]) parent,
         length others).
Proof.
  unfold on_create.
  destruct (snoc_cases (children parent)) as [Hnil|(others & child & Hsnoc)].
  - rewrite Hnil. exists (new_element "figure" ∅), [].
    split; [done|]. split; [by left|done].
  - rewrite Hsnoc, last_child_snoc, removelast_last.
    destruct (reusable_cases child) as [Hre|Hre].
    + rewrite (find_fig_reusable child Hre). exists child, others.
      split; [by destruct Hre|]. split; [by right|done].
    + rewrite (find_fig_not_reusable child Hre).
      exists (set_children [child] (new_element "figure" ∅)), others.
      split; [done|]. split; [by left|done].
Qed.

(** X9.  The container a caption block hands to the host is the caption
    it has just created: [on_create] returns the last child of the
    parent, a [figure], and [on_add] then returns a new empty
    [figcaption] of that figure, its first child when the caption is
    prepended and its last child otherwise.  Apart from [caption] the
    block is as it was. *)
Theorem on_add_returns_new_caption (self : Block) (parent : Element) :
  let out := on_create self parent in
  ∃ fig k,
    children out.1.2 !! out.2 = Some fig
    ∧ S out.2 = length (children out.1.2)
    ∧ tag fig = "figure"
    ∧ out.1.1 = set_caption (Some k) self
    ∧ k = (if prepend self then 0%nat else pred (length (children fig)))
    ∧ on_add out.1.1 fig = Some (new_element "figcaption" ∅).
Proof.
  cbn zeta.
  destruct (on_create_shape self parent) as (fig0 & others & Htag & _ & ->).
  destruct (attach_tag self fig0) as (Hat & _ & Hkids).
  exists (attach self fig0). eexists. cbn [fst snd].
  split; [simpl; by apply list_lookup_middle|].
  split; [simpl; rewrite length_app; simpl; lia|].
  split; [by rewrite Hat|]. split; [reflexivity|]. split; [reflexivity|].
  unfold on_add. simpl. rewrite Hkids. destruct (prepend self); [done|].
  rewrite length_app. simpl. rewrite Nat.add_1_r. simpl.
  by apply list_lookup_middle.
Qed.

Lemma truthy_ne (s : string) : Py.truthy s = true ↔ s ≠ "".
Proof. by destruct s. Qed.




End Blocks.

Section Arguments.

Import Caption.

(** X11.  What validation does to the block: a leading [>] turns
    [prepend] off and a leading [<] turns it on, whatever the
    configuration says, and without a marker [prepend] stays as it is; at
    most one of [level] and [fig_num] is assigned, so a block fresh from
    [on_init] never holds both a level and a manual number; nothing else
    of the block changes. *)
Theorem on_validate_sets_direction_and_one_number (self : Block)
    (parent : Element) :
  let self' := (on_validate self parent).1.2 in
  let arg := default "" (argument self) in
  prepend self'
  = (if Py.startswith ">" arg then false
     else if Py.startswith "<" arg then true else prepend self)
  ∧ (level self' = level self ∨ fig_num self' = fig_num self)
  ∧ (level self = "" → fig_num self = "" →
     level self' = "" ∨ fig_num self' = "")
  ∧ NAME self' = NAME self ∧ PREFIX self' = PREFIX self
  ∧ argument self' = argument self ∧ config self' = config self
  ∧ auto self' = auto self ∧ caption self' = caption self.
Proof.
  cbn zeta. unfold on_validate.
  destruct (argument self) as [[|c arg]|] eqn:Harg; cbn [default];
    [repeat split; try done; intros; by left| |
     repeat split; try done; intros; by left].
  cbn [Py.truthy]. unfold parse_argument.
  destruct (Py.startswith ">" (String c arg)) eqn:Hgt.
  { destruct (Re.match_ RE_FIG_NUM _) as [m|];
      [destruct (Py.truthy (default "" (Re.group m 1)))|];
      cbn in Hgt |- *; rewrite ?Harg, ?Hgt; repeat split; try done;
      intros; ((by left) || (by right)). }
  destruct (Py.startswith "<" (String c arg)) eqn:Hlt.
  { destruct (Re.match_ RE_FIG_NUM _) as [m|];
      [destruct (Py.truthy (default "" (Re.group m 1)))|];
      cbn in Hgt, Hlt |- *; rewrite ?Harg, ?Hgt, ?Hlt; repeat split;
      try done; intros; ((by left) || (by right)). }
  destruct (Re.match_ RE_FIG_NUM _) as [m|];
    [destruct (Py.truthy (default "" (Re.group m 1)))|];
    cbn in Hgt, Hlt |- *; rewrite ?Harg, ?Hgt, ?Hlt; repeat split;
    try done; intros; ((by left) || (by right)).
Qed.

(** X12.  An argument is rejected unless it begins with a direction
    marker, a caret or a digit from 1 to 9: a number with a leading zero
    or a sign, or any other text, is refused, and the block and the
    parent are left as they were. *)
Theorem on_validate_rejects_other_starts (self : Block) (parent : Element)
    (c : ascii) (rest : string) :
  argument self = Some (String c rest) →
  token_start c = false →
  on_validate self parent = (false, self, parent).
Proof.
  intros Harg Hc. unfold on_validate. rewrite Harg. cbn [Py.truthy].
  assert (Hparse : parse_argument self (String c rest)
                   = (self, String c rest)).
  { clear Harg.
    destruct c as [[] [] [] [] [] [] [] []];
      vm_compute in Hc; try discriminate Hc; reflexivity. }
  rewrite Hparse. done.
Qed.

End Arguments.

Lemma on_validate_rejects_other_starts_witness :
  Caption.on_validate
    (Caption.on_init "figure-caption" "Figure {}." default_config
       (Some "01")) (root_of [])
  = (false,
     Caption.on_init "figure-caption" "Figure {}." default_config (Some "01"),
     root_of []).
Proof.
  apply (on_validate_rejects_other_starts
           (Caption.on_init "figure-caption" "Figure {}." default_config
              (Some "01")) (root_of []) "0" "1");
    reflexivity.
Defined.

(** * Further properties of [update_tag] *)

Lemma append_assoc (s1 s2 s3 : string) :
  (s1 +:+ s2) +:+ s3 = s1 +:+ (s2 +:+ s3).
Proof.
  induction s1 as [|a s1 IH]; [done|].
  change (String a ((s1 +:+ s2) +:+ s3) = String a (s1 +:+ (s2 +:+ s3))).
  by rewrite IH.
Qed.

Lemma append_nil_r (s : string) : s +:+ "" = s.
Proof.
  induction s as [|a s IH]; [done|].
  change (String a (s +:+ "") = String a s). by rewrite IH.
Qed.

Lemma itertext_eq (el : Element) :
  itertext el
  = default "" (text el)
    +:+ foldr (fun c acc => itertext c +:+ default "" (tail c) +:+ acc) ""
          (children el).
Proof. by destruct el. Qed.

Lemma text_kept_refl (c : Element) : text_kept c c.
Proof. exists (itertext c), "", "". by rewrite !append_nil_r. Qed.

Lemma prefix_caption_text (value : string) (c : Element) :
  tag (prefix_caption value c) = tag c
  ∧ attrib (prefix_caption value c) = attrib c
  ∧ tail (prefix_caption value c) = tail c
  ∧ text_kept c (prefix_caption value c).
Proof.
  assert (Hwrap : ∀ kids,
    children c = kids →
    text_kept c
      (set_children
         (mkElement "p" ∅ None (text c) [prefix_span value None] :: kids)
         (set_text None c))).
  { intros kids Hkids. exists "", value, (itertext c).
    split; [done|].
    rewrite (itertext_eq c), (itertext_eq (set_children _ _)), Hkids.
    cbn [set_children set_text text children foldr default].
    rewrite (itertext_eq (mkElement "p" _ _ _ _)).
    unfold prefix_span. cbn [text children tail foldr default].
    rewrite (itertext_eq (mkElement "span" _ _ _ _)).
    cbn [text children tail foldr default].
    by rewrite !append_nil_r. }
  unfold prefix_caption. destruct (children c) as [|p rest] eqn:Hkids.
  { repeat split; try done. by apply Hwrap. }
  destruct (String.eqb (tag p) "p"); cbn [negb].
  2: { repeat split; try done. by apply Hwrap. }
  repeat split; try done.
  exists (default "" (text c)),
    (value +:+ match text p with Some _ => " " | None => "" end),
    (foldr (fun c acc => itertext c +:+ default "" (tail c) +:+ acc) ""
       (p :: rest)).
  split; [by rewrite (itertext_eq c), Hkids|].
  rewrite (itertext_eq (set_children _ _)).
  cbn [set_children set_text text children foldr default].
  rewrite (itertext_eq (set_children _ (set_text None p))).
  unfold prefix_span.
  cbn [set_children set_text text children tail foldr default].
  rewrite (itertext_eq (mkElement "span" _ _ _ _)).
  cbn [text children tail foldr default].
  rewrite (itertext_eq p).
  destruct (text p) as [t|]; cbn [default];
    by rewrite ?append_nil_r, ?append_assoc.
Qed.

(** X13.  [update_tag] only adds to a figure: whenever it returns, the
    figure keeps its tag, text and tail and every attribute but [id], its
    children keep their number, order, tags, attributes and tails, a child
    that is not a [figcaption] is untouched, and the text of a
    [figcaption] is what it was with the prefix inserted: no caption
    content is dropped or reordered. *)
Theorem update_tag_keeps_content (el el' : Element)
    (fig_type fig_num template : string) (prepend : bool) :
  update_tag el fig_type fig_num template prepend = Ok el' →
  tag el' = tag el ∧ text el' = text el ∧ tail el' = tail el
  ∧ (∀ key, key ≠ "id" → attrib el' !! key = attrib el !! key)
  ∧ Forall2
      (fun c c' =>
         tag c' = tag c ∧ attrib c' = attrib c ∧ tail c' = tail c
         ∧ text_kept c c' ∧ (tag c ≠ "figcaption" → c' = c))
      (children el) (children el').
Proof.
  intros H.
  destruct (update_tag_tag _ _ _ _ _ _ H) as (Htag & Htext & Htail).
  split; [done|]. split; [done|]. split; [done|].
  split; [by eapply update_tag_keeps|].
  eapply Forall2_impl; [by eapply update_tag_children|].
  intros c c' [->|(Hc & value & ->)].
  - repeat split; try done. apply text_kept_refl.
  - destruct (prefix_caption_text value c) as (? & ? & ? & ?).
    repeat split; try done.
Qed.

Lemma update_tag_keeps_content_witness :
  let cap :=
    mkElement "figcaption" ∅ (Some "a") None
      [mkElement "b" ∅ (Some "c") (Some "d") []] in
  let fig := mkElement "figure" ∅ None None [paragraph "x"; cap] in
  ∃ el',
    update_tag fig "figure-caption" "1" "Figure {}." false = Ok el'
    ∧ tag el' = "figure"
    ∧ Forall2
        (fun c c' =>
           tag c' = tag c ∧ attrib c' = attrib c ∧ tail c' = tail c
           ∧ text_kept c c' ∧ (tag c ≠ "figcaption" → c' = c))
        (children fig) (children el')
    ∧ itertext <$> children el' = ["x"; "Figure 1.acd"].
Proof.
  intros cap fig.
  assert (Hup : ∃ el', update_tag fig "figure-caption" "1" "Figure {}." false
                       = Ok el').
  { eexists. vm_compute. reflexivity. }
  destruct Hup as [el' Hup]. exists el'. split; [exact Hup|].
  destruct (update_tag_keeps_content fig el' "figure-caption" "1"
              "Figure {}." false Hup) as (Htag & _ & _ & _ & Hkids).
  split; [exact Htag|]. split; [exact Hkids|].
  vm_compute in Hup. injection Hup as <-. vm_compute. reflexivity.
Defined.

Lemma update_tag_prefixed (el : Element)
    (fig_type fig_num template value : string) (prepend : bool) :
  Py.truthy template = true →
  Py.format template fig_num = Ok value →
  ∃ el',
    update_tag el fig_type fig_num template prepend = Ok el'
    ∧ children el'
      = (fun c => if String.eqb (tag c) "figcaption"
                  then prefix_caption value c else c) <$> children el.
Proof.
  intros Htpl Hfmt. unfold update_tag. rewrite Htpl. destruct prepend.
  - rewrite (caption_steps_all _ _ _ _ Hfmt). simpl. eauto.
  - rewrite (caption_steps_all _ _ _ _ Hfmt). simpl.
    rewrite rev_fmap, rev_involutive. eauto.
Qed.

Lemma str_truthy (n : Z) : Py.truthy (Py.str n) = true.
Proof.
  pose proof (int_str n) as H. destruct (Py.str n); [discriminate H|done].
Qed.

Lemma ones_truthy (k : nat) :
  (0 < k)%nat → Py.truthy (Py.join "." (replicate k "1")) = true.
Proof. destruct k as [|[|k]]; [lia|done|done]. Qed.

Lemma split_ones (k : nat) :
  (0 < k)%nat →
  Py.split "." (Py.join "." (replicate k "1")) = replicate k "1".
Proof.
  intros Hk. apply split_join.
  - destruct k; [lia|done].
  - apply Forall_replicate, Forall_cons. split; [done|by apply Forall_nil].
Qed.

Section ManualMode.

Import Caption.

(** X14.  [on_end] numbers a figure in manual mode only: it leaves the
    figure alone when the block is in automatic mode, has no prefix
    template, or holds neither a level nor a manual number.  In manual
    mode a level [n] stands for the number made of [n] ones, whatever
    manual number the block may hold: the figure gets the identifier of
    that number unless it has one, and every [figcaption] child gets the
    prefix. *)
Theorem on_end_numbers_in_manual_mode_only (self : Block) (block : Element) :
  (auto self = true ∨ PREFIX self = ""
   ∨ (level self = "" ∧ fig_num self = "") →
   on_end self block = Ok block)
  ∧ (∀ n value,
       auto self = false → PREFIX self ≠ "" →
       level self = Py.str n → 0 < n →
       Py.format (PREFIX self) (Py.join "." (replicate (Z.to_nat n) "1"))
       = Ok value →
       ∃ block',
         on_end self block = Ok block'
         ∧ tag block' = tag block
         ∧ attrib block' !! "id"
           = Some (default ("__" +:+ NAME self +:+ "_"
                            +:+ Py.join "_" (replicate (Z.to_nat n) "1"))
                     (attrib block !! "id"))
         ∧ children block'
           = (fun c => if String.eqb (tag c) "figcaption"
                       then prefix_caption value c else c)
             <$> children block).
Proof.
  split.
  - unfold on_end. intros [Hauto|[Hpre|[Hlv Hnum]]].
    + rewrite Hauto. by rewrite andb_false_r.
    + by rewrite Hpre.
    + destruct (_ && _); [|done]. by rewrite Hlv, Hnum.
  - intros n value Hauto Hpre Hlv Hn Hfmt. unfold on_end.
    apply truthy_ne in Hpre. rewrite Hpre, Hauto, Hlv, str_truthy, int_str.
    cbn [negb andb mbind result_bind].
    rewrite ones_truthy by lia.
    destruct (update_tag_id block (NAME self) _ _ _ (prepend self) Hfmt)
      as (block' & Hup & Htag & Hid & _).
    destruct (update_tag_prefixed block (NAME self) _ _ _ (prepend self)
                Hpre Hfmt) as (block'' & Hup' & Hkids).
    rewrite Hup in Hup'. injection Hup' as <-.
    exists block'. split; [done|]. split; [done|]. split; [|done].
    rewrite Hid. by rewrite split_ones by lia.
Qed.

End ManualMode.

Lemma on_end_numbers_in_manual_mode_only_witness :
  let self :=
    Caption.set_level "2"
      (Caption.on_init "figure-caption" "Figure {}."
         {| cfg_auto := false; cfg_prepend := false; cfg_auto_level := 0 |}
         (Some "^2")) in
  let block :=
    mkElement "figure" ∅ None None
      [paragraph "x"; new_element "figcaption" ∅] in
  ∃ block',
    Caption.on_end self block = Ok block'
    ∧ attrib block' !! "id" = Some "__figure-caption_1_1"
    ∧ children block'
      = [paragraph "x";
         prefix_caption "Figure 1.1." (new_element "figcaption" ∅)].
Proof.
  intros self block.
  destruct (on_end_numbers_in_manual_mode_only self block) as [_ H].
  destruct (H 2 "Figure 1.1.") as (block' & Hend & _ & Hid & Hkids);
    [reflexivity|done|reflexivity|lia|reflexivity|].
  exists block'. split; [exact Hend|]. split; [exact Hid|exact Hkids].
Defined.

(** * The registry of figure types *)

Section Registry.

Variable config : Config.




End Registry.


(** * The admonition block *)

Lemma capitalize_raises (s : string) (e : exn) :
  PyStr.capitalize s = Raise e → e = Unsupported.
Proof.
  destruct s as [|c s]; [done|]. unfold PyStr.capitalize.
  destruct (PyStr.title_char c) as [t|e'] eqn:Ht; [done|].
  intros [= <-]. unfold PyStr.title_char in Ht.
  repeat case_match; try done. by injection Ht as <-.
Qed.

Section Admonitions.

Import Admonition.

(** X16.  What [on_create] of an admonition builds, given that the block
    has the option [type]: a [div] appended to the parent, whose other
    children stay; its class is [admonition], followed by the type when
    that is not empty and not [admonition] itself; it holds a title
    paragraph and nothing else, or nothing: the title is the argument
    when there is one, otherwise the capitalized type, and there is no
    title when both are empty.  The only failure is a type whose
    capitalized form needs a code point above 255. *)
Theorem admonition_class_and_title (self : Block) (parent : Element)
    (atype : string) :
  options self !! "type" = Some atype →
  let class :=
    if Py.truthy atype && negb (String.eqb atype "admonition")
    then "admonition " +:+ atype else "admonition" in
  let arg := default "" (argument self) in
  match on_create self parent with
  | Ok (parent', i) =>
      ∃ title,
        parent'
        = set_children
            (children parent
             ++ [mkElement "div" {["class" := class]} None None
                   (match title with Some t => [title_p t] | None => [] end)])
            parent
        ∧ i = length (children parent)
        ∧ (arg ≠ "" → title = Some arg)
        ∧ (arg = "" → atype = "" → title = None)
        ∧ (arg = "" → atype ≠ "" →
           ∃ t, PyStr.capitalize atype = Ok t ∧ title = Some t)
  | Raise e =>
      e = Unsupported ∧ arg = "" ∧ atype ≠ ""
      ∧ PyStr.capitalize atype = Raise Unsupported
  end.
Proof.
  intros Hty. cbn zeta. unfold on_create.
  rewrite (getitem_some _ _ _ Hty). cbn [mbind result_bind].
  assert (Hclass :
    {["class" := Py.join " "
                   (if Py.truthy atype && negb (String.eqb atype "admonition")
                    then ["admonition"; atype] else ["admonition"])]}
    = ({["class" := if Py.truthy atype
                       && negb (String.eqb atype "admonition")
                    then "admonition " +:+ atype else "admonition"]}
       : attrs)).
  { by destruct (_ && _). }
  rewrite Hclass. clear Hclass.
  destruct (argument self) as [[|c arg]|] eqn:Harg; cbn [default Py.truthy negb].
  - destruct atype as [|c atype]; cbn [Py.truthy negb].
    + exists None. by repeat split.
    + destruct (PyStr.capitalize (String c atype)) as [t|e] eqn:Hcap.
      * exists (Some t). repeat split; try done. intros _ _. by exists t.
      * by rewrite (capitalize_raises _ _ Hcap) in *.
  - exists (Some (String c arg)). by repeat split.
  - destruct atype as [|c atype]; cbn [Py.truthy negb].
    + exists None. by repeat split.
    + destruct (PyStr.capitalize (String c atype)) as [t|e] eqn:Hcap.
      * exists (Some t). repeat split; try done. intros _ _. by exists t.
      * by rewrite (capitalize_raises _ _ Hcap) in *.
Qed.

(** X17.  A block of a generated admonition class takes its type from the
    class: after [on_parse], which always accepts, the option [type] is
    the name of the class whatever the options held, so [on_create] does
    not raise [KeyError] and the [div] it returns has the class
    [admonition] followed by the name.  The base class leaves the options
    as they are. *)
Theorem admonition_subclass_type_is_its_name (self : Block)
    (parent : Element) :
  NAME self ≠ "" → NAME self ≠ "admonition" →
  let self' := (on_parse self).2 in
  (on_parse self).1 = true
  ∧ NAME self' = NAME self ∧ argument self' = argument self
  ∧ options self' !! "type" = Some (NAME self)
  ∧ (∀ key, key ≠ "type" → options self' !! key = options self !! key)
  ∧ on_create self' parent ≠ Raise KeyError
  ∧ ∀ parent' i,
      on_create self' parent = Ok (parent', i) →
      ∃ el, children parent' !! i = Some el
            ∧ tag el = "div"
            ∧ attrib el = {["class" := "admonition " +:+ NAME self]}.
Proof.
  intros Hne Hname. cbn zeta. unfold on_parse.
  apply String.eqb_neq in Hname as Hneq. rewrite Hneq. cbn [negb fst snd].
  set (self' := mkBlock _ _ _).
  assert (Hty : options self' !! "type" = Some (NAME self))
    by apply lookup_insert_eq.
  split; [done|]. split; [done|]. split; [done|]. split; [done|].
  split; [intros key Hkey; by apply lookup_insert_ne|].
  unfold on_create. rewrite (getitem_some _ _ _ Hty).
  cbn [mbind result_bind].
  apply truthy_ne in Hne. rewrite Hne, Hneq. cbn [negb andb].
  destruct (if negb (Py.truthy (default "" (argument self')))
            then Some <$> PyStr.capitalize (NAME self)
            else Ok (argument self')) as [title|e] eqn:Htitle;
    cbn [mbind result_bind].
  - split; [done|]. intros ? ? [= <- <-]. eexists.
    split; [by apply list_lookup_middle|]. by destruct title.
  - split; [|by intros ? ? ?].
    destruct (negb _) in Htitle; [|done].
    destruct (PyStr.capitalize (NAME self)) as [t|e'] eqn:Hcap; [done|].
    injection Htitle as <-. by rewrite (capitalize_raises _ _ Hcap).
Qed.

End Admonitions.

Lemma admonition_class_and_title_witness :
  let self := Admonition.mkBlock "note" None {["type" := "note"]} in
  let parent := root_of [paragraph "x"] in
  ∃ parent' title,
    Admonition.on_create self parent = Ok (parent', 1%nat)
    ∧ parent'
      = set_children
          (children parent
           ++ [mkElement "div" {["class" := "admonition note"]} None None
                 (match title with
                  | Some t => [Admonition.title_p t]
                  | None => []
                  end)])
          parent
    ∧ title = Some "Note".
Proof.
  intros self parent.
  assert (Hc : ∃ r, Admonition.on_create self parent = Ok r).
  { eexists. vm_compute. reflexivity. }
  destruct Hc as [[parent' i] Hc].
  pose proof (admonition_class_and_title self parent "note" eq_refl) as H.
  cbn zeta in H. rewrite Hc in H.
  destruct H as (title & Hp & Hi & _ & _ & Hcap).
  destruct Hcap as (t & Ht & Htitle); [reflexivity|done|].
  vm_compute in Ht. injection Ht as <-.
  exists parent', title. rewrite Hi in Hc.
  split; [exact Hc|]. split; [exact Hp|exact Htitle].
Defined.

Lemma admonition_subclass_type_is_its_name_witness :
  let self :=
    Admonition.mkBlock "tip" (Some "Hello") {["type" := "warning"]} in
  let parent := root_of [] in
  ∃ parent' el,
    Admonition.on_create (Admonition.on_parse self).2 parent
    = Ok (parent', 0%nat)
    ∧ children parent' !! 0%nat = Some el
    ∧ attrib el = {["class" := "admonition tip"]}.
Proof.
  intros self parent.
  assert (Hc : ∃ parent',
    Admonition.on_create (Admonition.on_parse self).2 parent
    = Ok (parent', 0%nat)).
  { eexists. vm_compute. reflexivity. }
  destruct Hc as [parent' Hc].
  destruct (admonition_subclass_type_is_its_name self parent)
    as (_ & _ & _ & _ & _ & _ & H); [done|done|].
  destruct (H parent' 0%nat Hc) as (el & Hel & _ & Hclass).
  exists parent', el. split; [exact Hc|]. split; [exact Hel|exact Hclass].
Defined.

(** * The pass run again *)

Section Again.

Variable self : CaptionTreeprocessor.

(** What an iteration leaves on a figure, and whether it records it. *)
Lemma loop_body_marks (p : path) (parents : list (string * attrs))
    (st st' : LoopState) (el el' : Element) :
  loop_body self p parents st el = Ok (st', el') →
  (figs st' = figs st ∨ figs st' = figs st ++ [p])
  ∧ (tag el' = "figure" →
     attrib el' !! "__figure_prepend" = None
     ∧ (is_Some (attrib el' !! "__figure_type") →
        figs st' = figs st ++ [p])).
Proof.
  intros H. pose proof (loop_body_attrs self _ _ _ _ _ _ H) as (Htag & _).
  revert H. unfold loop_body.
  destruct (String.eqb (tag el) "figure") eqn:Hfig.
  2: { intros [= <- <-]. split; [by left|]. intros Hf.
       apply String.eqb_neq in Hfig. done. }
  set (a := if has_key (attrib el) "__figure_prepend" then _ else _).
  assert (Hpre : a !! "__figure_prepend" = None).
  { subst a. destruct (has_key (attrib el) "__figure_prepend") eqn:E.
    - apply lookup_delete_eq.
    - destruct (attrib el !! "__figure_prepend") eqn:E'; [|done].
      by rewrite (has_key_some _ _ _ E') in E. }
  clearbody a.
  destruct (has_key a "__figure_type") eqn:Hhas.
  2: { intros [= <- <-]. split; [by left|]. intros _. simpl.
       split; [done|]. intros [t Ht].
       by rewrite (has_key_some _ _ _ Ht) in Hhas. }
  intros H. apply bind_ok in H as (ty & _ & H).
  assert (Hgoal : figs st' = figs st ++ [p]
                  ∧ attrib el' !! "__figure_prepend" = None).
  { destruct (_ || _) in H; [by injection H as <- <-|].
    apply bind_ok in H as (d & Hd & H).
    pose proof (find_depth_drops_num self _ _ _ _ Hd) as Hdrop.
    destruct d as [a'|a' stack fig_num]; destruct Hdrop as [_ Hp];
      rewrite Hpre in Hp.
    { by injection H as <- <-. }
    destruct (stack >? -1); [|by injection H as <- <-].
    unfold number in H.
    apply bind_ok in H as (l & _ & H). apply bind_ok in H as (c & _ & H).
    apply bind_ok in H as (n & _ & H). apply bind_ok in H as (el1 & Hup & H).
    injection H as <- <-. simpl. split; [done|].
    by rewrite (update_tag_keeps _ _ _ _ _ _ Hup). }
  destruct Hgoal as [Hfigs Hp]. split; [by right|]. by intros _.
Qed.

Lemma iter_children_covers
    (f : nat → LoopState → Element → result (LoopState * Element))
    (p : path) (l l' : list Element) (i0 : nat) (st st' : LoopState) :
  (∀ i st st' c c',
     f i st c = Ok (st', c') →
     ∃ rs, figs st' = figs st ++ (((p ++ [i]) ++.) <$> rs) ∧ covered c' rs) →
  iter_children f i0 st l = Ok (st', l') →
  ∃ rs, figs st' = figs st ++ ((p ++.) <$> rs)
        ∧ (∀ r, r ∈ rs → r ≠ [])
        ∧ ∀ i c', l' !! i = Some c' →
                  covered c'
                    (omap (fun r => match r with
                                    | j :: r' =>
                                        if decide (j = (i0 + i)%nat)
                                        then Some r' else None
                                    | [] => None
                                    end) rs).
Proof.
  intros Hf. revert l' i0 st.
  induction l as [|c l IH]; intros l' i0 st H; simpl in H.
  - injection H as <- <-. exists []. simpl. rewrite app_nil_r.
    split; [done|]. split; [by intros r Hr%elem_of_nil|].
    by intros i c' Hi.
  - apply bind_ok in H as ([st1 c1] & Hc & H).
    apply bind_ok in H as ([st2 l2] & Hl & H). injection H as <- <-.
    apply Hf in Hc as (rs1 & Hfigs1 & Hcov1).
    apply IH in Hl as (rs2 & Hfigs2 & Hnil2 & Hcov2).
    exists (((i0 ::.) <$> rs1) ++ rs2). split; [|split].
    + rewrite Hfigs2, Hfigs1, fmap_app, <- !app_assoc. do 2 f_equal.
      rewrite <- list_fmap_compose. apply list_fmap_ext.
      intros _ r _. simpl. by rewrite <- app_assoc.
    + intros r Hr. apply elem_of_app in Hr as [Hr|Hr]; [|by apply Hnil2].
      apply list_elem_of_fmap in Hr as (r1 & -> & _). done.
    + intros i c' Hi q e Hq Hfig. destruct i as [|i]; simpl in Hi.
      * injection Hi as <-. destruct (Hcov1 q e Hq Hfig) as [Hp Hty].
        split; [done|]. intros Hsome. apply list_elem_of_omap.
        exists (i0 :: q). split.
        -- apply elem_of_app. left. apply list_elem_of_fmap.
           exists q. split; [done|by apply Hty].
        -- rewrite Nat.add_0_r. by rewrite decide_True.
      * destruct (Hcov2 i c' Hi q e Hq Hfig) as [Hp Hty].
        split; [done|]. intros Hsome.
        apply Hty, list_elem_of_omap in Hsome as (r & Hr & Hsel).
        apply list_elem_of_omap. exists r. split.
        -- apply elem_of_app. by right.
        -- destruct r as [|j r']; [done|].
           replace (i0 + S i)%nat with (S i0 + i)%nat by lia. done.
Qed.

Lemma iter_loop_covers (fuel : nat) (p : path)
    (parents : list (string * attrs)) (st st' : LoopState)
    (el el' : Element) :
  iter_loop self fuel p parents st el = Ok (st', el') →
  ∃ rs, figs st' = figs st ++ ((p ++.) <$> rs) ∧ covered el' rs.
Proof.
  revert p parents st st' el el'.
  induction fuel as [|fuel IH]; intros p parents st st' el el' H;
    simpl in H; [done|].
  apply bind_ok in H as ([st1 el1] & Hbody & H).
  apply bind_ok in H as ([st2 kids] & Hkids & H). injection H as <- <-.
  apply (iter_children_covers _ p) in Hkids
    as (rs & Hfigs & Hnil & Hcov); [|intros i s s' c c' Hc; by eapply IH].
  apply loop_body_marks in Hbody as [Hrec Hroot].
  assert (Hbelow : ∀ j q e,
    find_at (j :: q) (set_children kids el1) = Some e → tag e = "figure" →
    attrib e !! "__figure_prepend" = None
    ∧ (is_Some (attrib e !! "__figure_type") → j :: q ∈ rs)).
  { intros j q e Hq Hfig. simpl in Hq.
    destruct (kids !! j) as [c'|] eqn:Hj; [|done].
    destruct (Hcov j c' Hj q e Hq Hfig) as [Hp Hty]. split; [done|].
    intros Hsome. apply Hty, list_elem_of_omap in Hsome as (r & Hr & Hsel).
    destruct r as [|j' r']; [done|]. simpl in Hsel.
    case_decide as Hjj; [|done]. injection Hsel as ->. by subst j'. }
  destruct Hrec as [Hsame|Hrec].
  - exists rs. split; [by rewrite Hfigs, Hsame|].
    intros [|j q] e Hq Hfig; [|by apply Hbelow].
    injection Hq as <-. simpl in *. destruct (Hroot Hfig) as [Hp Hty].
    split; [done|]. intros Hsome. apply Hty in Hsome.
    rewrite Hsame in Hsome.
    rewrite <- (app_nil_r (figs st)) in Hsome at 1.
    by apply app_inv_head in Hsome.
  - exists ([] :: rs). split.
    + rewrite Hfigs, Hrec, <- app_assoc. simpl. by rewrite app_nil_r.
    + intros [|j q] e Hq Hfig.
      * injection Hq as <-. simpl in *. destruct (Hroot Hfig) as [Hp _].
        split; [done|]. intros _. apply elem_of_cons. by left.
      * destruct (Hbelow j q e Hq Hfig) as [Hp Hty]. split; [done|].
        intros Hsome. apply elem_of_cons. right. by apply Hty.
Qed.

End Again.

(** Cleaning one figure changes the attributes of that figure only. *)
Lemma modify_at_find (r : path) :
  ∀ doc doc' q e',
    modify_at clean_up r doc = Ok doc' →
    find_at q doc' = Some e' →
    ∃ e, find_at q doc = Some e ∧ tag e' = tag e
         ∧ attrib e' !! "__figure_prepend" = attrib e !! "__figure_prepend"
         ∧ attrib e' !! "__figure_type"
           = (if decide (q = r) then None else attrib e !! "__figure_type").
Proof.
  induction r as [|i r IH]; intros doc doc' q e' H Hq.
  - simpl in H. unfold clean_up in H.
    apply bind_ok in H as (t & _ & H). injection H as <-.
    destruct q as [|j q].
    + injection Hq as <-. exists doc. split; [done|]. split; [done|].
      simpl. split.
      * destruct (has_key _ _); by rewrite ?lookup_delete_ne by done.
      * destruct (has_key _ _);
          by rewrite ?(lookup_delete_ne _ "__figure_level"), lookup_delete_eq
            by done.
    + exists e'. by rewrite decide_False by done.
  - simpl in H. destruct (children doc !! i) as [c|] eqn:Hc; [|done].
    apply bind_ok in H as (c1 & Hc1 & H). injection H as <-.
    destruct q as [|j q].
    + injection Hq as <-. exists doc. by rewrite decide_False by done.
    + simpl in Hq. destruct (decide (j = i)) as [->|Hji].
      * rewrite list_lookup_insert_eq in Hq by (by eapply lookup_lt_Some).
        destruct (IH _ _ _ _ Hc1 Hq) as (e & He & Htag & Hp & Hty).
        exists e. simpl. rewrite Hc. split; [done|]. split; [done|].
        split; [done|]. rewrite Hty.
        destruct (decide (q = r)) as [->|Hqr].
        -- by rewrite decide_True.
        -- by rewrite decide_False by congruence.
      * rewrite list_lookup_insert_ne in Hq by done.
        exists e'. simpl. by rewrite decide_False by congruence.
Qed.

Lemma clean_up_all_find (rs : list path) :
  ∀ doc out q e',
    clean_up_all rs doc = Ok out →
    find_at q out = Some e' →
    ∃ e, find_at q doc = Some e ∧ tag e' = tag e
         ∧ attrib e' !! "__figure_prepend" = attrib e !! "__figure_prepend"
         ∧ (attrib e' !! "__figure_type" = None
            ∨ ((q ∉ rs)
               ∧ attrib e' !! "__figure_type" = attrib e !! "__figure_type")).
Proof.
  induction rs as [|r rs IH]; intros doc out q e' H Hq; simpl in H.
  - injection H as <-. exists e'. repeat split; try done.
    right. split; [by intros ?%elem_of_nil|done].
  - apply bind_ok in H as (doc1 & Hdoc1 & H).
    destruct (IH _ _ _ _ H Hq) as (e1 & He1 & Htag1 & Hp1 & Hty1).
    destruct (modify_at_find _ _ _ _ _ Hdoc1 He1) as (e & He & Htag & Hp & Hty).
    exists e. split; [done|]. split; [congruence|]. split; [congruence|].
    destruct Hty1 as [Hnone|[Hnot Hsame]]; [by left|].
    destruct (decide (q = r)) as [->|Hqr].
    + left. congruence.
    + right. split; [|congruence].
      intros [->|Hin]%elem_of_cons; done.
Qed.

Lemma elements_cases (el e : Element) :
  e ∈ elements el →
  e = el ∨ ∃ i c, children el !! i = Some c ∧ e ∈ elements c.
Proof.
  destruct el as [t a tx tl kids]. simpl.
  intros [->|He]%elem_of_cons; [by left|]. right.
  induction kids as [|k kids IH]; [by apply elem_of_nil in He|].
  simpl in He. apply elem_of_app in He as [He|He].
  - by exists 0%nat, k.
  - destruct (IH He) as (i & c & Hi & Hc). by exists (S i), c.
Qed.

Lemma elements_find (n : nat) :
  ∀ el e, (height el ≤ n)%nat → e ∈ elements el →
          ∃ q, find_at q el = Some e.
Proof.
  induction n as [|n IH]; intros el e Hn He.
  - pose proof (height_pos el). lia.
  - apply elements_cases in He as [->|(i & c & Hi & Hc)]; [by exists []|].
    destruct (IH c e) as [q Hq]; [|done|].
    + pose proof (height_child el c (list_elem_of_lookup_2 _ _ _ Hi)). lia.
    + exists (i :: q). simpl. by rewrite Hi.
Qed.

(** X18.  The pass is idempotent: in the document it returns no figure
    carries [__figure_type] or [__figure_prepend], so a second pass over
    that document returns it unchanged; in particular no prefix is
    inserted twice. *)
Theorem run_twice_changes_nothing (self : CaptionTreeprocessor)
    (doc out : Element) :
  run self doc = Ok out →
  hint_free out ∧ run self out = Ok out.
Proof.
  intros H.
  assert (Hfree : hint_free out).
  { unfold run in H. apply bind_ok in H as ([st doc'] & Hloop & Hclean).
    apply iter_loop_covers in Hloop as (rs & Hfigs & Hcov).
    assert (Hid : (app (@nil nat) <$> rs) = rs).
    { clear. induction rs as [|r rs IH]; simpl; [done|]. by f_equal. }
    rewrite Hid in Hfigs. simpl in Hfigs. rewrite Hfigs in Hclean.
    intros e He Hfig.
    destruct (elements_find (height out) out e (Nat.le_refl _) He) as [q Hq].
    destruct (clean_up_all_find _ _ _ _ _ Hclean Hq)
      as (e0 & He0 & Htag & Hp & Hty).
    rewrite Htag in Hfig. destruct (Hcov q e0 He0 Hfig) as [Hp0 Hty0].
    split; [|congruence].
    destruct Hty as [Hnone|[Hnot Hsame]]; [done|].
    destruct (attrib e !! "__figure_type") eqn:E; [|done].
    exfalso. apply Hnot, Hty0. rewrite <- Hsame. by eexists. }
  split; [exact Hfree|]. unfold run.
  rewrite (iter_loop_hint_free self) by (done || lia). done.
Qed.

Lemma run_twice_changes_nothing_witness :
  ∃ doc out,
    doc_two_figures = Some doc
    ∧ run (tp_init figure_types default_config) doc = Ok out
    ∧ out ≠ doc
    ∧ run (tp_init figure_types default_config) out = Ok out.
Proof.
  assert (Hdoc : ∃ doc, doc_two_figures = Some doc).
  { eexists. vm_compute. reflexivity. }
  destruct Hdoc as [doc Hdoc].
  assert (Hrun : ∃ out, run (tp_init figure_types default_config) doc
                        = Ok out).
  { vm_compute in Hdoc. injection Hdoc as <-.
    eexists. vm_compute. reflexivity. }
  destruct Hrun as [out Hrun].
  exists doc, out. split; [exact Hdoc|]. split; [exact Hrun|].
  split.
  - vm_compute in Hdoc. injection Hdoc as <-.
    vm_compute in Hrun. injection Hrun as <-. discriminate.
  - exact (proj2 (run_twice_changes_nothing _ doc out Hrun)).
Defined.

(** * Counters and types *)

Section PerType.

Variable self : CaptionTreeprocessor.

(** X19.  The numbering of one type does not disturb another: an
    iteration on an element that is not a figure changes nothing at all,
    and an iteration on a figure leaves the counter and the depth of every
    type but the type of the figure as they were. *)
Theorem counters_are_per_type (p : path) (parents : list (string * attrs))
    (st st' : LoopState) (el el' : Element) :
  loop_body self p parents st el = Ok (st', el') →
  (tag el ≠ "figure" → st' = st ∧ el' = el)
  ∧ ∀ ty, attrib el !! "__figure_type" ≠ Some ty →
          counters st' !! ty = counters st !! ty
          ∧ last st' !! ty = last st !! ty.
Proof.
  unfold loop_body.
  destruct (String.eqb (tag el) "figure") eqn:Hfig.
  2: { intros [= <- <-]. by split. }
  apply String.eqb_eq in Hfig.
  set (a := if has_key (attrib el) "__figure_prepend" then _ else _).
  assert (Hty : a !! "__figure_type" = attrib el !! "__figure_type").
  { subst a. destruct (has_key (attrib el) "__figure_prepend"); [|done].
    by rewrite lookup_delete_ne. }
  clearbody a.
  destruct (has_key a "__figure_type"); [|intros [= <- _]; by split].
  intros H. split; [done|]. intros ty Hne.
  apply bind_ok in H as (fig_type & Hget & H). apply getitem_ok in Hget.
  rewrite Hty in Hget.
  destruct (_ || _) in H; [by injection H as <- _|].
  apply bind_ok in H as (d & _ & H).
  destruct d as [a'|a' stack fig_num]; [by injection H as <- _|].
  destruct (stack >? -1); [|by injection H as <- _].
  unfold number in H.
  apply bind_ok in H as (l & _ & H). apply bind_ok in H as (c & _ & H).
  apply bind_ok in H as (n & _ & H). apply bind_ok in H as (el1 & _ & H).
  injection H as <- _. simpl.
  rewrite !lookup_insert_ne by congruence. done.
Qed.

(** X20.  A figure whose type is not registered, or is registered with
    an empty template, is never numbered: its iteration returns whatever
    else the figure carries, changes no counter, adds no [id] and no
    prefix, and takes nothing from the figure but [__figure_prepend]; the
    figure is recorded for the clean-up all the same. *)
Theorem figure_without_template_not_numbered (p : path)
    (parents : list (string * attrs)) (st : LoopState) (el : Element)
    (ty : string) :
  tag el = "figure" →
  attrib el !! "__figure_type" = Some ty →
  default "" (tp_fig_types self !! ty) = "" →
  loop_body self p parents st el
  = Ok ({| last := last st; counters := counters st;
           last_type := last_type st; figs := figs st ++ [p] |},
        set_attrib (delete "__figure_prepend" (attrib el)) el).
Proof.
  intros Hfig Hty Htpl. unfold loop_body.
  apply String.eqb_eq in Hfig. rewrite Hfig.
  assert (Ha : (if has_key (attrib el) "__figure_prepend"
                then delete "__figure_prepend" (attrib el) else attrib el)
               = delete "__figure_prepend" (attrib el)).
  { destruct (has_key (attrib el) "__figure_prepend") eqn:E; [done|].
    symmetry. apply delete_id.
    destruct (attrib el !! "__figure_prepend") eqn:E'; [|done].
    by rewrite (has_key_some _ _ _ E') in E. }
  rewrite Ha.
  assert (Hty' : delete "__figure_prepend" (attrib el) !! "__figure_type"
                 = Some ty) by (by rewrite lookup_delete_ne).
  rewrite (has_key_some _ _ _ Hty'), (getitem_some _ _ _ Hty').
  cbn [mbind result_bind]. rewrite Htpl. cbn [Py.truthy negb].
  by rewrite orb_true_r.
Qed.

End PerType.

Lemma counters_are_per_type_witness :
  let fig :=
    mkElement "figure" {["__figure_type" := "figure-caption"]} None None
      [new_element "figcaption" ∅] in
  ∃ st' el',
    loop_body tp_default [] [] (init_state tp_default) fig = Ok (st', el')
    ∧ counters st' !! "table-caption" = Some [0]
    ∧ counters st' !! "figure-caption" = Some [1].
Proof.
  intros fig.
  assert (Hbody : ∃ r, loop_body tp_default [] [] (init_state tp_default) fig
                       = Ok r).
  { eexists. vm_compute. reflexivity. }
  destruct Hbody as [[st' el'] Hbody].
  destruct (counters_are_per_type tp_default [] [] (init_state tp_default)
              st' fig el' Hbody) as [_ Hother].
  destruct (Hother "table-caption") as [Hc _]; [done|].
  exists st', el'. split; [exact Hbody|]. split.
  - rewrite Hc. reflexivity.
  - vm_compute in Hbody. injection Hbody as <- _. reflexivity.
Defined.

Lemma figure_without_template_not_numbered_witness :
  let fig :=
    mkElement "figure"
      {["__figure_type" := "caption"; "__figure_num" := "x";
        "__figure_prepend" := "1"]} None None
      [new_element "figcaption" ∅] in
  loop_body tp_default [] [] (init_state tp_default) fig
  = Ok ({| last := last (init_state tp_default);
           counters := counters (init_state tp_default);
           last_type := ""; figs := [[]] |},
        set_attrib {["__figure_type" := "caption"; "__figure_num" := "x"]}
          fig).
Proof.
  intros fig.
  rewrite (figure_without_template_not_numbered tp_default [] []
             (init_state tp_default) fig "caption");
    [|reflexivity|reflexivity|reflexivity].
  vm_compute. reflexivity.
Defined.

(** * Well-formed numeric tokens *)

Lemma pretty_N_char_d19 (m : N) :
  (0 < m < 10)%N → is_d19 (pretty_N_char m) = true.
Proof.
  intros Hm.
  assert (m = 1 ∨ m = 2 ∨ m = 3 ∨ m = 4 ∨ m = 5 ∨ m = 6 ∨ m = 7
          ∨ m = 8 ∨ m = 9)%N as H by lia.
  destruct_or!; subst m; reflexivity.
Qed.

(** The numeral of a positive number does not begin with a zero. *)
Lemma pretty_N_go_numeral (x : N) :
  (0 < x)%N →
  ∃ g, numeral_ok g
       ∧ ∀ s, list_ascii_of_string (pretty_N_go x s)
              = g.1 :: g.2 ++ list_ascii_of_string s.
Proof.
  induction (N.lt_wf_0 x) as [x _ IH]. intros Hx.
  destruct (pretty_N_char_digit (x `mod` 10)%N) as [Hc _].
  { by apply N.mod_lt. }
  destruct (N.eq_0_gt_0_cases (x `div` 10)) as [Hdiv|Hdiv].
  - exists (pretty_N_char (x `mod` 10), []). split.
    + split; [|by apply Forall_nil]. simpl. apply pretty_N_char_d19.
      pose proof (N.div_mod x 10 ltac:(done)) as Hdm.
      pose proof (N.mod_lt x 10 ltac:(done)) as Hlt.
      rewrite Hdiv, N.mul_0_r, N.add_0_l in Hdm. rewrite <- Hdm.
      split; [done|]. by rewrite Hdm.
    + intros s. rewrite pretty_N_go_step by done. by rewrite Hdiv.
  - destruct (IH (x `div` 10)%N) as ([d ds] & [Hd Hds] & Hgo);
      [by apply N.div_lt|done|].
    exists (d, ds ++ [pretty_N_char (x `mod` 10)]). split.
    + split; [done|]. simpl in *. apply Forall_app. split; [done|].
      apply Forall_cons. split; [done|by apply Forall_nil].
    + intros s. rewrite pretty_N_go_step by done. rewrite Hgo. simpl.
      by rewrite <- app_assoc.
Qed.

Lemma str_numeral (n : Z) :
  0 < n →
  ∃ g, numeral_ok g ∧ list_ascii_of_string (Py.str n) = g.1 :: g.2.
Proof.
  intros Hn. destruct n as [|p|p]; [lia| |lia].
  destruct (pretty_N_go_numeral (N.pos p)) as (g & Hg & Hgo); [lia|].
  exists g. split; [done|].
  unfold Py.str, pretty, pretty_Z, pretty, pretty_positive, pretty, pretty_N.
  rewrite decide_False by done. rewrite Hgo. simpl. by rewrite app_nil_r.
Qed.

Lemma list_ascii_of_string_app (s t : string) :
  list_ascii_of_string (s +:+ t)
  = list_ascii_of_string s ++ list_ascii_of_string t.
Proof.
  induction s as [|c s IH]; [done|].
  change (c :: list_ascii_of_string (s +:+ t)
          = c :: (list_ascii_of_string s ++ list_ascii_of_string t)).
  by rewrite IH.
Qed.

(** The characters of a dotted number of positive integers. *)
Lemma dotted_numerals (l : list Z) :
  l ≠ [] → Forall (fun n => 0 < n) l →
  ∃ g gs,
    numeral_ok g ∧ Forall numeral_ok gs
    ∧ list_ascii_of_string (Py.join "." (Py.str <$> l))
      = g.1 :: g.2 ++ digit_groups gs.
Proof.
  intros Hne Hpos. induction Hpos as [|n l Hn Hl IH]; [done|].
  destruct (str_numeral n Hn) as (g & Hg & Hstr).
  destruct l as [|n' l].
  - exists g, []. split; [done|]. split; [constructor|].
    simpl. by rewrite Hstr, app_nil_r.
  - destruct IH as (g' & gs & Hg' & Hgs & Hrest); [done|].
    exists g, (g' :: gs). split; [done|]. split; [by constructor|].
    change (Py.join "." (Py.str <$> n :: n' :: l))
      with (Py.str n +:+ String "." (Py.join "." (Py.str <$> n' :: l))).
    rewrite list_ascii_of_string_app, Hstr.
    change (list_ascii_of_string (String "." ?s))
      with ("."%char :: list_ascii_of_string s).
    rewrite Hrest. done.
Qed.

Section Matcher.

Context {M : Type}.
Implicit Types k : nat → list ascii → Re.captures → option M.

Lemma exec_star r1 pos rest caps k :
  Re.exec (Re.Star r1) pos rest caps k
  = star_loop r1 k (length rest) pos rest caps.
Proof. reflexivity. Qed.

Lemma star_loop_O r1 k pos rest caps :
  star_loop r1 k 0 pos rest caps = k pos rest caps.
Proof. reflexivity. Qed.

Lemma star_loop_S r1 k fuel pos rest caps :
  star_loop r1 k (S fuel) pos rest caps
  = match Re.exec r1 pos rest caps
            (fun pos' rest' caps' =>
               if (length rest' <? length rest)%nat
               then star_loop r1 k fuel pos' rest' caps' else None) with
    | Some m => Some m
    | None => k pos rest caps
    end.
Proof. reflexivity. Qed.

Lemma exec_seq r1 r2 pos rest caps k :
  Re.exec (Re.Seq r1 r2) pos rest caps k
  = Re.exec r1 pos rest caps
      (fun pos' rest' caps' => Re.exec r2 pos' rest' caps' k).
Proof. reflexivity. Qed.

Lemma exec_digit pos c rest caps k :
  Re.exec (Re.range "0" "9") pos (c :: rest) caps k
  = if Py.is_digit c then k (S pos) rest caps else None.
Proof. reflexivity. Qed.

Lemma exec_d19 pos c rest caps k :
  Re.exec (Re.range "1" "9") pos (c :: rest) caps k
  = if is_d19 c then k (S pos) rest caps else None.
Proof. reflexivity. Qed.

Lemma exec_any pos c rest caps k :
  Re.exec Re.any pos (c :: rest) caps k
  = if negb (Ascii.eqb c "010") then k (S pos) rest caps else None.
Proof. reflexivity. Qed.

Lemma exec_nil (p : ascii → bool) pos caps k :
  Re.exec (Re.Chr p) pos [] caps k = None.
Proof. reflexivity. Qed.

(** The greedy loop over digits takes all the digits there are, when
    what follows then matches. *)
Lemma star_digits k (ds rest : list ascii) (m : M) :
  Forall (fun c => Py.is_digit c = true) ds →
  match rest with c :: _ => Py.is_digit c = false | [] => True end →
  ∀ fuel pos caps,
    (length ds ≤ fuel)%nat →
    k (pos + length ds)%nat rest caps = Some m →
    star_loop (Re.range "0" "9") k fuel pos (ds ++ rest) caps = Some m.
Proof.
  intros Hds Hrest.
  induction Hds as [|d ds Hd Hds IH]; intros fuel pos caps Hfuel Hk.
  - rewrite Nat.add_0_r in Hk. simpl app.
    destruct fuel as [|fuel]; [exact Hk|]. rewrite star_loop_S.
    destruct rest as [|c rest]; [exact Hk|].
    rewrite exec_digit, Hrest. exact Hk.
  - destruct fuel as [|fuel]; [simpl in Hfuel; lia|].
    rewrite star_loop_S. change ((d :: ds) ++ rest) with (d :: (ds ++ rest)).
    rewrite exec_digit, Hd.
    assert (Hlt : (length (ds ++ rest) <? length (d :: ds ++ rest))%nat
                  = true) by (apply Nat.ltb_lt; simpl; lia).
    rewrite Hlt. rewrite (IH fuel (S pos) caps); [done| |].
    + simpl in Hfuel. lia.
    + rewrite <- Hk. f_equal. simpl. lia.
Qed.

Lemma digit_groups_head (gs : list (ascii * list ascii)) :
  match digit_groups gs with
  | c :: _ => Py.is_digit c = false
  | [] => True
  end.
Proof. by destruct gs. Qed.

Lemma d19_facts (c : ascii) :
  is_d19 c = true →
  Py.is_digit c = true ∧ Ascii.eqb c "010" = false
  ∧ Ascii.eqb c "^" = false ∧ Ascii.eqb c ">" = false
  ∧ Ascii.eqb c "<" = false.
Proof.
  destruct c as [[] [] [] [] [] [] [] []]; intros H;
    vm_compute in H; try discriminate H; repeat split; reflexivity.
Qed.

(** The greedy loop over the components after the first takes them all,
    when the subject ends there and what follows then matches. *)
Lemma star_groups k (gs : list (ascii * list ascii)) (m : M) :
  Forall numeral_ok gs →
  ∀ fuel pos caps,
    (length (digit_groups gs) ≤ fuel)%nat →
    k (pos + length (digit_groups gs))%nat [] caps = Some m →
    star_loop
      (Re.Seq Re.any (Re.Seq (Re.range "1" "9") (Re.Star (Re.range "0" "9"))))
      k fuel pos (digit_groups gs) caps
    = Some m.
Proof.
  induction 1 as [|[d ds] gs [Hd Hds] Hgs IH]; intros fuel pos caps Hfuel Hk.
  - simpl in *. rewrite Nat.add_0_r in Hk.
    destruct fuel as [|fuel]; [exact Hk|].
    rewrite star_loop_S, exec_seq. unfold Re.any. rewrite exec_nil.
    exact Hk.
  - simpl in Hd, Hds.
    change (digit_groups ((d, ds) :: gs))
      with ("."%char :: d :: ds ++ digit_groups gs) in *.
    destruct fuel as [|fuel]; [simpl in Hfuel; lia|].
    rewrite star_loop_S, exec_seq, exec_any. cbn [Ascii.eqb Bool.eqb negb].
    rewrite exec_seq, exec_d19, Hd, exec_star.
    match goal with
    | |- match ?X with Some _ => _ | None => _ end = _ =>
        assert (Hinner : X = Some m); [|by rewrite Hinner]
    end.
    apply star_digits;
      [done|apply digit_groups_head|rewrite length_app; lia|].
    assert (Hlt : (length (digit_groups gs)
                   <? length ("."%char :: d :: ds ++ digit_groups gs))%nat
                  = true).
    { apply Nat.ltb_lt. simpl. rewrite length_app. lia. }
    rewrite Hlt. apply IH.
    + simpl in Hfuel. rewrite length_app in Hfuel. lia.
    + rewrite <- Hk. f_equal. simpl. rewrite length_app. lia.
Qed.

End Matcher.

Section Tokens.

Context {M : Type}.
Implicit Types k : nat → list ascii → Re.captures → option M.

Lemma exec_bol rest caps k : Re.exec Re.Bol 0 rest caps k = k 0%nat rest caps.
Proof. reflexivity. Qed.

Lemma exec_opt r pos rest caps k :
  Re.exec (Re.Opt r) pos rest caps k
  = match Re.exec r pos rest caps k with
    | Some m => Some m
    | None => k pos rest caps
    end.
Proof. reflexivity. Qed.

Lemma exec_group n r pos rest caps k :
  Re.exec (Re.Group n r) pos rest caps k
  = Re.exec r pos rest caps
      (fun pos' rest' caps' => k pos' rest' (<[n := (pos, pos')]> caps')).
Proof. reflexivity. Qed.

Lemma exec_chr a pos c rest caps k :
  Re.exec (Re.chr a) pos (c :: rest) caps k
  = if Ascii.eqb a c then k (S pos) rest caps else None.
Proof. reflexivity. Qed.

Lemma exec_end pos caps k :
  Re.exec (Re.Look (Re.Alt (Re.chr " ") Re.Eol)) pos [] caps k
  = k pos [] caps.
Proof. reflexivity. Qed.

(** Group 2 of [RE_FIG_NUM] takes a whole dotted number. *)
Lemma exec_number k pos caps (g : ascii * list ascii)
    (gs : list (ascii * list ascii)) (m : M) :
  numeral_ok g → Forall numeral_ok gs →
  k (S pos + length g.2 + length (digit_groups gs))%nat [] caps = Some m →
  Re.exec
    (Re.Seq (Re.range "1" "9")
       (Re.Seq (Re.Star (Re.range "0" "9"))
          (Re.Star
             (Re.Seq Re.any
                (Re.Seq (Re.range "1" "9") (Re.Star (Re.range "0" "9")))))))
    pos (g.1 :: g.2 ++ digit_groups gs) caps k
  = Some m.
Proof.
  intros [Hd Hds] Hgs Hk.
  rewrite exec_seq, exec_d19, Hd, exec_seq, exec_star.
  apply star_digits;
    [done|apply digit_groups_head|rewrite length_app; lia|].
  rewrite exec_star. by apply star_groups.
Qed.

End Tokens.

Lemma length_list_ascii (s : string) :
  length (list_ascii_of_string s) = String.length s.
Proof. induction s as [|c s IH]; simpl; [done|]. by rewrite IH. Qed.

Lemma substring_all (s : string) : substring 0 (String.length s) s = s.
Proof. induction s as [|c s IH]; simpl; [done|]. by rewrite IH. Qed.

Lemma drop_all (s : string) : Py.drop (String.length s) s = "".
Proof. induction s as [|c s IH]; simpl; done. Qed.

Lemma d19_not_marker (c : ascii) :
  is_d19 c = true →
  Ascii.eqb "^" c = false ∧ Ascii.eqb c ">" = false
  ∧ Ascii.eqb c "<" = false.
Proof.
  destruct c as [[] [] [] [] [] [] [] []]; intros H;
    vm_compute in H; try discriminate H; repeat split; reflexivity.
Qed.

(** [RE_FIG_NUM] on a dotted number: the whole subject is group 2. *)
Lemma match_dotted (s : string) (g : ascii * list ascii)
    (gs : list (ascii * list ascii)) :
  numeral_ok g → Forall numeral_ok gs →
  list_ascii_of_string s = g.1 :: g.2 ++ digit_groups gs →
  Re.match_ RE_FIG_NUM s
  = Some (Re.mkMatch s (String.length s) {[2%nat := (0%nat, String.length s)]}).
Proof.
  intros Hg Hgs Hs. pose proof (length_list_ascii s) as Hlen.
  rewrite Hs in Hlen. simpl in Hlen. rewrite length_app in Hlen.
  unfold Re.match_, RE_FIG_NUM. rewrite Hs.
  rewrite exec_seq, exec_bol, exec_seq, exec_opt, exec_group, exec_chr.
  destruct (d19_not_marker g.1 (proj1 Hg)) as (-> & _).
  rewrite exec_seq, exec_group.
  apply exec_number; [done|done|].
  rewrite exec_end. simpl. rewrite Hlen. done.
Qed.

(** [RE_FIG_NUM] on a caret and a numeral: the caret is group 1, the
    numeral group 2. *)
Lemma match_level (t : string) (g : ascii * list ascii) :
  numeral_ok g →
  list_ascii_of_string t = g.1 :: g.2 →
  Re.match_ RE_FIG_NUM (String "^" t)
  = Some (Re.mkMatch (String "^" t) (S (String.length t))
            (<[2%nat := (1%nat, S (String.length t))]>
               {[1%nat := (0%nat, 1%nat)]})).
Proof.
  intros Hg Ht. pose proof (length_list_ascii t) as Hlen.
  rewrite Ht in Hlen. simpl in Hlen.
  unfold Re.match_, RE_FIG_NUM.
  change (list_ascii_of_string (String "^" t))
    with ("^"%char :: list_ascii_of_string t).
  rewrite Ht, <- (app_nil_r g.2).
  change (@nil ascii) with (digit_groups []).
  rewrite exec_seq, exec_bol, exec_seq, exec_opt, exec_group, exec_chr.
  cbn [Ascii.eqb Bool.eqb].
  rewrite exec_seq, exec_group.
  erewrite exec_number; [done|done|constructor|].
  rewrite exec_end. simpl. rewrite Nat.add_0_r, Hlen. done.
Qed.

Section WellFormed.

Import Caption.

Lemma list_ascii_head (s : string) (c : ascii) (l : list ascii) :
  list_ascii_of_string s = c :: l → ∃ s', s = String c s'.
Proof. destruct s as [|c' s']; [done|]. intros [= -> _]. by eexists. Qed.

(** X21.  Validation accepts every well-formed numeric token and stores
    it verbatim: a dotted number of positive integers in canonical
    decimal form becomes the manual number of the block, and a caret
    followed by a positive integer becomes its level; nothing else of the
    block changes and the parent is left alone.  (The pass reads the
    manual number back as the very list of integers.) *)
Theorem on_validate_accepts_wellformed_tokens (name prefix : string)
    (cfg : Config) (parent : Element) :
  (∀ l, l ≠ [] → Forall (fun n => 0 < n) l →
        let s := Py.join "." (Py.str <$> l) in
        on_validate (on_init name prefix cfg (Some s)) parent
        = (true, set_fig_num s (on_init name prefix cfg (Some s)), parent)
        ∧ mapR Py.int (Py.split "." s) = Ok l)
  ∧ (∀ n, 0 < n →
          let s := String "^" (Py.str n) in
          on_validate (on_init name prefix cfg (Some s)) parent
          = (true, set_level (Py.str n) (on_init name prefix cfg (Some s)),
             parent)
          ∧ Py.int (Py.str n) = Ok n).
Proof.
  split.
  - intros l Hne Hpos. cbn zeta.
    destruct (dotted_numerals l Hne Hpos) as (g & gs & Hg & Hgs & Hs).
    split; [|by rewrite split_ordinal, mapR_int_str].
    set (s := Py.join "." (Py.str <$> l)) in *. clearbody s.
    destruct (list_ascii_head _ _ _ Hs) as [s' Hs'].
    destruct (d19_not_marker g.1 (proj1 Hg)) as (_ & Hgt & Hlt).
    unfold on_validate, on_init. cbn [argument].
    assert (Htruthy : Py.truthy s = true) by (by rewrite Hs').
    rewrite Htruthy. unfold parse_argument.
    assert (Hstart : Py.startswith ">" s = false ∧ Py.startswith "<" s = false)
      by (by rewrite Hs').
    destruct Hstart as [-> ->].
    rewrite (match_dotted s g gs Hg Hgs Hs).
    unfold Re.group. cbn [Re.m_groups Re.m_string Re.m_end].
    rewrite lookup_singleton_ne by done. rewrite lookup_singleton_eq.
    cbn [default Py.truthy].
    rewrite Nat.sub_0_r, substring_all, drop_all. done.
  - intros n Hn. cbn zeta. split; [|apply int_str].
    destruct (str_numeral n Hn) as (g & Hg & Hs).
    set (t := Py.str n) in *. clearbody t.
    unfold on_validate, on_init. cbn [argument Py.truthy].
    unfold parse_argument. cbn [Py.startswith Ascii.eqb Bool.eqb].
    rewrite (match_level t g Hg Hs).
    unfold Re.group. cbn [Re.m_groups Re.m_string Re.m_end].
    rewrite lookup_insert_eq, lookup_insert_ne by done.
    rewrite lookup_singleton_eq. cbn [default].
    unfold id. simpl. rewrite ?Nat.sub_0_r, substring_all, drop_all. done.
Qed.

End WellFormed.

Lemma on_validate_accepts_wellformed_tokens_witness :
  let block arg :=
    Caption.on_init "figure-caption" "Figure {}." default_config (Some arg) in
  Caption.on_validate (block "2.10.3") (root_of [])
  = (true, Caption.set_fig_num "2.10.3" (block "2.10.3"), root_of [])
  ∧ Caption.on_validate (block "^12") (root_of [])
    = (true, Caption.set_level "12" (block "^12"), root_of []).
Proof.
  intros block.
  destruct (on_validate_accepts_wellformed_tokens "figure-caption"
              "Figure {}." default_config (root_of [])) as [Hnum Hlevel].
  split.
  - destruct (Hnum [2; 10; 3]) as [H _]; [done| |exact H].
    repeat (apply Forall_cons; split; [lia|]). apply Forall_nil. exact I.
  - destruct (Hlevel 12) as [H _]; [lia|exact H].
Defined.
